(** * chaoslib.secret: resolution of a declarative secrets specification

    A shallow embedding of [src/chaoslib/secret.py] and the properties of
    [load_secrets], of its three loaders and of [create_vault_client].

    Python dictionaries are modelled as association lists in insertion
    order with distinct keys: the loaders iterate with [.items()], and the
    iteration order decides which exception is raised first and in which
    order the store is read.  [dict_set] updates a bound key in place and
    appends a new one, as assignment to a Python dict does. *)

From Stdlib Require Import List String Ascii ZArith Bool Lia.
From Stdlib Require Import DecimalString.
Import ListNotations.
Local Open Scope list_scope.
Local Open Scope string_scope.

Set Implicit Arguments.

(** ** Dictionaries *)

Section Dict.
Context {A : Type}.

Definition dict := list (string * A).

Fixpoint dict_get (k : string) (d : dict) : option A :=
  match d with
  | [] => None
  | (k', v) :: r => if String.eqb k k' then Some v else dict_get k r
  end.

Definition dict_mem (k : string) (d : dict) : bool :=
  match dict_get k d with Some _ => true | None => false end.

(** [d[k] = v] *)
Fixpoint dict_set (k : string) (v : A) (d : dict) : dict :=
  match d with
  | [] => [(k, v)]
  | (k', v') :: r =>
      if String.eqb k k' then (k', v) :: r else (k', v') :: dict_set k v r
  end.

(** [d.pop(k)], for a key that is bound *)
Fixpoint dict_pop (k : string) (d : dict) : dict :=
  match d with
  | [] => []
  | (k', v') :: r =>
      if String.eqb k k' then r else (k', v') :: dict_pop k r
  end.

(** [d.update(other)] *)
Definition dict_update (d other : dict) : dict :=
  fold_left (fun acc kv => dict_set (fst kv) (snd kv) acc) other d.

(** [not d] *)
Definition dict_is_empty (d : dict) : bool :=
  match d with [] => true | _ => false end.

Definition keys_of (d : dict) : list string := map fst d.

(** A Python dict binds every key once. *)
Definition wf_dict (d : dict) : Prop := NoDup (keys_of d).
End Dict.

Arguments dict : clear implicits.

(** ** Values

    The values of an experiment file and of a store payload: what a JSON
    document holds (numbers with a fraction are left out). *)

#[warnings="-register-all"]
Inductive value : Type :=
| VNone
| VBool (b : bool)
| VInt (n : Z)
| VStr (s : string)
| VList (l : list value)
| VDict (d : list (string * value)).

Definition is_none (v : value) : bool :=
  match v with VNone => true | _ => false end.

(** [not v] is [negb (truthy v)] *)
Definition truthy (v : value) : bool :=
  match v with
  | VNone => false
  | VBool b => b
  | VInt n => negb (Z.eqb n 0)
  | VStr s => negb (String.eqb s "")
  | VList l => match l with [] => false | _ => true end
  | VDict d => negb (dict_is_empty d)
  end.

(** [d.get(k)] and [d.get(k, default)] on a dict *)
Definition py_get (d : dict value) (k : string) : value :=
  match dict_get k d with Some v => v | None => VNone end.

Definition py_get_default (d : dict value) (k : string) (dflt : value) : value :=
  match dict_get k d with Some v => v | None => dflt end.

(** [v == "s"] for a string constant [s] *)
Definition eq_str (v : value) (s : string) : bool :=
  match v with VStr s' => String.eqb s' s | _ => false end.

(** [a == b] *)
Fixpoint py_eq (a b : value) {struct a} : bool :=
  match a, b with
  | VNone, VNone => true
  | VBool x, VBool y => Bool.eqb x y
  | VBool x, VInt n => Z.eqb (if x then 1 else 0) n
  | VInt n, VBool y => Z.eqb n (if y then 1 else 0)
  | VInt n, VInt m => Z.eqb n m
  | VStr s, VStr t => String.eqb s t
  | VList l, VList m =>
      (fix all2 (l : list value) (m : list value) {struct l} : bool :=
         match l, m with
         | [], [] => true
         | x :: l', y :: m' => py_eq x y && all2 l' m'
         | _, _ => false
         end) l m
  | VDict d, VDict e =>
      Nat.eqb (List.length d) (List.length e) &&
      (fix sub (d : list (string * value)) {struct d} : bool :=
         match d with
         | [] => true
         | (k, x) :: d' =>
             match dict_get k e with
             | Some y => py_eq x y && sub d'
             | None => false
             end
         end) d
  | _, _ => false
  end.

(** [sub in s] on strings *)
Fixpoint str_contains (sub s : string) : bool :=
  String.prefix sub s ||
  match s with
  | EmptyString => false
  | String _ s' => str_contains sub s'
  end.

(** ** [str] and [repr]

    [str(v)] as Python prints it.  Inside a list or a dict a string is
    printed by [repr]: quoted, with the backslash, the quote, the tab, the
    line feed and the carriage return escaped and the other control
    characters in hexadecimal. *)

Definition hex_digit (n : nat) : ascii :=
  match n with
  | 0 => "0" | 1 => "1" | 2 => "2" | 3 => "3" | 4 => "4" | 5 => "5"
  | 6 => "6" | 7 => "7" | 8 => "8" | 9 => "9" | 10 => "a" | 11 => "b"
  | 12 => "c" | 13 => "d" | 14 => "e" | _ => "f"
  end%char.

Definition repr_char (q : ascii) (c : ascii) : string :=
  let n := nat_of_ascii c in
  if Ascii.eqb c "\"%char then "\\"
  else if Ascii.eqb c q then String "\"%char (String q "")
  else if Nat.eqb n 9 then "\t"
  else if Nat.eqb n 10 then "\n"
  else if Nat.eqb n 13 then "\r"
  else if Nat.ltb n 32 || Nat.eqb n 127 then
    String "\"%char (String "x"%char
      (String (hex_digit (Nat.div n 16)) (String (hex_digit (Nat.modulo n 16)) "")))
  else String c "".

Fixpoint has_char (c : ascii) (s : string) : bool :=
  match s with
  | EmptyString => false
  | String c' s' => Ascii.eqb c c' || has_char c s'
  end.

Definition squote : ascii := ascii_of_nat 39.
Definition dquote : ascii := ascii_of_nat 34.

Definition repr_str (s : string) : string :=
  let q := if has_char squote s && negb (has_char dquote s) then dquote else squote in
  String q
    ((fix go (s : string) : string :=
        match s with
        | EmptyString => String q ""
        | String c s' => repr_char q c ++ go s'
        end) s).

Definition str_int (n : Z) : string := NilZero.string_of_int (Z.to_int n).

Fixpoint py_repr (v : value) : string :=
  match v with
  | VNone => "None"
  | VBool true => "True"
  | VBool false => "False"
  | VInt n => str_int n
  | VStr s => repr_str s
  | VList l =>
      "[" ++
      (fix go (l : list value) : string :=
         match l with
         | [] => ""
         | [x] => py_repr x
         | x :: l' => py_repr x ++ ", " ++ go l'
         end) l ++ "]"
  | VDict d =>
      "{" ++
      (fix go (d : list (string * value)) : string :=
         match d with
         | [] => ""
         | [(k, x)] => repr_str k ++ ": " ++ py_repr x
         | (k, x) :: d' => repr_str k ++ ": " ++ py_repr x ++ ", " ++ go d'
         end) d ++ "}"
  end.

Definition py_str (v : value) : string :=
  match v with
  | VStr s => s
  | _ => py_repr v
  end.

(** ** Exceptions, events and the monad of the module

    A call either returns or raises; on the way it logs and it calls the
    store client.  Both are recorded, in order, in a trace. *)

Inductive exn : Type :=
| KeyError (key : string)
| TypeError
| AttributeError
| InvalidExperiment (msg : string)
| HvacError (msg : string).

Inductive level : Type := Debug | Warning | Error.

Inductive event : Type :=
| Log (lvl : level) (msg : string)
| HvacClient (url : value)
| AuthApprole (role_id role_secret : value)
| ReadSecret (path : value)
| ReadSecretVersion (path : value).

Definition M (A : Type) : Type := (list event * (exn + A))%type.

Definition ret {A} (a : A) : M A := ([], inr a).

Definition raise {A} (e : exn) : M A := ([], inl e).

Definition bind {A B} (m : M A) (f : A -> M B) : M B :=
  match m with
  | (t, inl e) => (t, inl e)
  | (t, inr a) => let (t', r) := f a in ((t ++ t')%list, r)
  end.

Definition emit (e : event) : M unit := ([e], inr tt).

Definition trace {A} (m : M A) : list event := fst m.
Definition result {A} (m : M A) : exn + A := snd m.

Declare Scope py_scope.
Delimit Scope py_scope with py.
Notation "x <- m ;; k" := (bind m (fun x => k))
  (at level 61, m at next level, right associativity) : py_scope.
Notation "m ;; k" := (bind m (fun _ => k))
  (at level 61, right associativity) : py_scope.
Local Open Scope py_scope.

(** ** The environment a call runs in

    [HAS_HVAC] is the module-level flag set by the guarded import.  The
    process environment and the store client are the module's two
    collaborators; a call of the client either raises (left, with the
    text of the exception) or returns a payload. *)

Record client : Type := {
  url : value;
  default_kv_version : string;
  token : option value
}.

Record world : Type := {
  HAS_HVAC : bool;
  environ : string -> option string;
  auth_approle : client -> value -> value -> string + value;
  read_secret : client -> value -> string + value;
  read_secret_version : client -> value -> string + value
}.

Definition configuration := dict value.
Definition secrets := dict (dict value).

(** [obj[k]] for a string constant [k] *)
Definition py_index (obj : value) (k : string) : M value :=
  match obj with
  | VDict d =>
      match dict_get k d with
      | Some v => ret v
      | None => raise (KeyError k)
      end
  | _ => raise TypeError
  end.

(** [obj.get(k, dflt)] for a string constant [k] *)
Definition py_get_attr (obj : value) (k : string) (dflt : value) : M value :=
  match obj with
  | VDict d => ret (py_get_default d k dflt)
  | _ => raise AttributeError
  end.

(** [x in obj] *)
Definition py_contains (obj x : value) : M bool :=
  match obj with
  | VDict d =>
      match x with
      | VStr s => ret (dict_mem s d)
      | VList _ | VDict _ => raise TypeError
      | _ => ret false
      end
  | VList l => ret (existsb (py_eq x) l)
  | VStr s =>
      match x with
      | VStr sub => ret (str_contains sub s)
      | _ => raise TypeError
      end
  | _ => raise TypeError
  end.

(** [obj.get(x)] *)
Definition py_get_value (obj x : value) : M value :=
  match obj with
  | VDict d =>
      match x with
      | VStr s => ret (py_get d s)
      | VList _ | VDict _ => raise TypeError
      | _ => ret VNone
      end
  | _ => raise AttributeError
  end.

(** ** create_vault_client *)

Definition call_store (r : string + value) : M value :=
  match r with
  | inl msg => raise (HvacError msg)
  | inr v => ret v
  end.

Definition create_vault_client (w : world) (cfg : option configuration)
  : M (option client) :=
  if HAS_HVAC w then
    match cfg with
    | None => raise AttributeError
    | Some configuration =>
        let url := py_get configuration "vault_addr" in
        emit (HvacClient url) ;;
        let kv := py_str (py_get_default configuration "vault_kv_version" (VStr "2")) in
        let client := {| url := url; default_kv_version := kv; token := None |} in
        emit (Log Debug ("Using Vault secrets KV version " ++ kv)) ;;
        if dict_mem "vault_token" configuration then
          ret (Some {| url := url; default_kv_version := kv;
                       token := Some (py_get configuration "vault_token") |})
        else if dict_mem "vault_role_id" configuration
                && dict_mem "vault_role_secret" configuration then
          let role_id := py_get configuration "vault_role_id" in
          let role_secret := py_get configuration "vault_role_secret" in
          emit (AuthApprole role_id role_secret) ;;
          match auth_approle w client role_id role_secret with
          | inl ve =>
              raise (InvalidExperiment
                       ("Failed to connect to Vault with the AppRole: " ++ ve))
          | inr app_role =>
              auth <- py_index app_role "auth" ;;
              tok <- py_index auth "client_token" ;;
              ret (Some {| url := url; default_kv_version := kv;
                           token := Some tok |})
          end
        else ret (Some client)
    end
  else ret None.

(** ** The loaders

    Each loader walks the whole specification.  For a target it binds an
    empty dict, fills it, and pops the target again when nothing was put
    in it: [close_target] is the state of [secrets] after these steps,
    [m] being what the inner loop put under the target. *)

Definition close_target (target : string) (m : dict value) (s : secrets)
  : secrets :=
  let s' := dict_set target m (dict_set target [] s) in
  if dict_is_empty m then dict_pop target s' else s'.

(** *** load_inline_secrets *)

Fixpoint inline_keys (keys : dict value) (acc : dict value) : dict value :=
  match keys with
  | [] => acc
  | (key, value) :: rest =>
      match value with
      | VDict d =>
          let ty := py_get d "type" in
          if negb (eq_str ty "env" || eq_str ty "vault")
          then inline_keys rest (dict_set key value acc)
          else inline_keys rest acc
      | _ => inline_keys rest (dict_set key value acc)
      end
  end.

Fixpoint inline_targets (secrets_info : secrets) (s : secrets) : secrets :=
  match secrets_info with
  | [] => s
  | (target, keys) :: rest =>
      inline_targets rest (close_target target (inline_keys keys []) s)
  end.

Definition load_inline_secrets (w : world) (secrets_info : secrets)
  (cfg : option configuration) : M secrets :=
  ret (inline_targets secrets_info []).

(** *** load_secrets_from_env *)

Definition env_missing : string :=
  "Secrets make reference to an environment key that does not exist: ".

Fixpoint env_keys (w : world) (keys : dict value) (acc : dict value)
  : M (dict value) :=
  match keys with
  | [] => ret acc
  | (key, value) :: rest =>
      match value with
      | VDict d =>
          if eq_str (py_get d "type") "env" then
            env_key <- py_index value "key" ;;
            match env_key with
            | VStr name =>
                match environ w name with
                | None => raise (InvalidExperiment (env_missing ++ name))
                | Some v => env_keys w rest (dict_set key (VStr v) acc)
                end
            | _ => raise TypeError
            end
          else env_keys w rest acc
      | _ => env_keys w rest acc
      end
  end.

Fixpoint env_targets (w : world) (secrets_info : secrets) (s : secrets)
  : M secrets :=
  match secrets_info with
  | [] => ret s
  | (target, keys) :: rest =>
      m <- env_keys w keys [] ;;
      env_targets w rest (close_target target m s)
  end.

Definition load_secrets_from_env (w : world) (secrets_info : secrets)
  (cfg : option configuration) : M secrets :=
  env_targets w secrets_info [].

(** *** load_secrets_from_vault *)

Definition hvac_missing : string :=
  "Install the `hvac` package to fetch secrets from Vault: `pip install chaostoolkit-lib[vault]`.".

(** The body of the inner loop for a vault-tagged [value] (the dict [d])
    once [HAS_HVAC] holds.  [acc] is [secrets[target]]; a [continue]
    returns it as it is. *)
Definition vault_entry (w : world) (cl : option client) (key : string)
  (d : dict value) (acc : dict value) : M (dict value) :=
  let path := py_get d "path" in
  if is_none path then
    emit (Log Warning ("Missing Vault secret path for '" ++ key ++ "'")) ;;
    ret acc
  else
    match cl with
    | None => raise AttributeError
    | Some c =>
        let is_kv1 := String.eqb (default_kv_version c) "1" in
        vault_payload <-
          (if is_kv1
           then emit (ReadSecret path) ;; call_store (read_secret w c path)
           else emit (ReadSecretVersion path) ;;
                call_store (read_secret_version w c path)) ;;
        if negb (truthy vault_payload) then
          emit (Log Warning ("No Vault secret found at path: " ++ py_str path)) ;;
          ret acc
        else
          data <-
            (if is_kv1
             then py_get_attr vault_payload "data" VNone
             else inner <- py_get_attr vault_payload "data" (VDict []) ;;
                  py_get_attr inner "data" VNone) ;;
          if dict_mem "key" d then
            vault_key <- py_index (VDict d) "key" ;;
            present <- py_contains data vault_key ;;
            if negb present then
              emit (Log Warning ("No Vault key '" ++ py_str vault_key
                                 ++ "' at secret path '" ++ py_str path ++ "'")) ;;
              ret acc
            else
              v <- py_get_value data vault_key ;;
              ret (dict_set key v acc)
          else ret (dict_set key data acc)
    end.

(** The inner loop; [None] stands for the [return {}] of the function. *)
Fixpoint vault_keys (w : world) (cl : option client) (keys : dict value)
  (acc : dict value) : M (option (dict value)) :=
  match keys with
  | [] => ret (Some acc)
  | (key, value) :: rest =>
      match value with
      | VDict d =>
          if eq_str (py_get d "type") "vault" then
            if negb (HAS_HVAC w) then
              emit (Log Error hvac_missing) ;;
              ret None
            else
              acc' <- vault_entry w cl key d acc ;;
              vault_keys w cl rest acc'
          else vault_keys w cl rest acc
      | _ => vault_keys w cl rest acc
      end
  end.

Fixpoint vault_targets (w : world) (cl : option client)
  (secrets_info : secrets) (s : secrets) : M secrets :=
  match secrets_info with
  | [] => ret s
  | (target, keys) :: rest =>
      r <- vault_keys w cl keys [] ;;
      match r with
      | None => ret []
      | Some m => vault_targets w cl rest (close_target target m s)
      end
  end.

Definition load_secrets_from_vault (w : world) (secrets_info : secrets)
  (cfg : option configuration) : M secrets :=
  cl <- create_vault_client w cfg ;;
  vault_targets w cl secrets_info [].

(** ** load_secrets *)

Definition loader : Type :=
  world -> secrets -> option configuration -> M secrets.

Definition loaders : list loader :=
  [load_inline_secrets; load_secrets_from_env; load_secrets_from_vault].

(** One turn of the inner [for key, value in loader(...).items()] *)
Definition merge_target (s : secrets) (kv : string * dict value) : secrets :=
  let (key, value) := kv in
  let s' := if negb (dict_mem key s) then dict_set key [] s else s in
  match dict_get key s' with
  | Some cur => dict_set key (dict_update cur value) s'
  | None => s'
  end.

Definition merge_into (s : secrets) (partial : secrets) : secrets :=
  fold_left merge_target partial s.

Fixpoint run_loaders (ls : list loader) (w : world) (secrets_info : secrets)
  (cfg : option configuration) (s : secrets) : M secrets :=
  match ls with
  | [] => ret s
  | ld :: rest =>
      partial <- ld w secrets_info cfg ;;
      run_loaders rest w secrets_info cfg (merge_into s partial)
  end.

Definition load_secrets (w : world) (secrets_info : secrets)
  (cfg : option configuration) : M secrets :=
  emit (Log Debug "Loading secrets...") ;;
  s <- run_loaders loaders w secrets_info cfg [] ;;
  emit (Log Debug "Secrets loaded") ;;
  ret s.

(** [secrets[target][key]] *)
Definition lookup2 (t k : string) (s : secrets) : option value :=
  match dict_get t s with
  | Some m => dict_get k m
  | None => None
  end.

(** * Vocabulary of the properties *)

(** ** Well-formed dicts of dicts *)

(** The specification is a dict of dicts. *)
Definition wf_spec (secrets_info : secrets) : Prop :=
  wf_dict secrets_info /\
  forall t keys, In (t, keys) secrets_info -> wf_dict keys.

(** What every loader returns: distinct targets, each with a non-empty
    dict of distinct secret names. *)
Definition good (s : secrets) : Prop :=
  wf_dict s /\ forall t m, In (t, m) s -> wf_dict m /\ m <> [].

(** ** Classifying a reference

    The tests the loaders make on a value of the specification:
    [isinstance(value, dict) and value.get("type") == tag], and the
    test of the inline loader. *)

Definition tagged (tag : string) (ref : value) : bool :=
  match ref with
  | VDict d => eq_str (py_get d "type") tag
  | _ => false
  end.

Definition is_inline (ref : value) : bool :=
  negb (tagged "env" ref || tagged "vault" ref).

(** What the environment gives for an env-tagged reference that names a
    variable which is set. *)
Definition env_value (w : world) (ref : value) : option value :=
  match ref with
  | VDict d =>
      if eq_str (py_get d "type") "env" then
        match dict_get "key" d with
        | Some (VStr name) => option_map VStr (environ w name)
        | _ => None
        end
      else None
  | _ => None
  end.

(** Nothing in [ref] makes the environment loader raise. *)
Definition resolvable (w : world) (ref : value) : bool :=
  if tagged "env" ref
  then match env_value w ref with Some _ => true | None => false end
  else true.

(** No entry of a target, and of a specification, makes it raise. *)
Definition all_resolvable (w : world) (keys : dict value) : bool :=
  forallb (fun kv => resolvable w (snd kv)) keys.

(** What the environment loader raises at an env-tagged reference it
    cannot resolve. *)
Definition env_error (w : world) (ref : value) : exn :=
  match ref with
  | VDict d =>
      match dict_get "key" d with
      | None => KeyError "key"
      | Some (VStr name) => InvalidExperiment (env_missing ++ name)
      | Some _ => TypeError
      end
  | _ => TypeError
  end.

Definition all_targets_resolvable (w : world) (secrets_info : secrets) : bool :=
  forallb (fun tk => all_resolvable w (snd tk)) secrets_info.

(** The specification has a vault-tagged entry. *)
Definition has_vault_ref (keys : dict value) : bool :=
  existsb (fun kv => tagged "vault" (snd kv)) keys.

Definition has_vault_entry (secrets_info : secrets) : bool :=
  existsb (fun tk => has_vault_ref (snd tk)) secrets_info.

(** ** Worlds and specifications of the examples *)

(** A read that finds nothing at any path. *)
Definition no_client_call : client -> value -> string + value :=
  fun _ _ => inr VNone.

(** [MYVAR=hello]; the store holds, under KV version 2, the payload
    [{"data": {"data": {"pw": "shhh"}}}] at [foo/bar] and nothing
    elsewhere. *)
Definition example_world : world :=
  {| HAS_HVAC := true;
     environ := fun name => if String.eqb name "MYVAR" then Some "hello" else None;
     auth_approle := fun _ _ _ => inl "connection refused";
     read_secret := no_client_call;
     read_secret_version := fun _ path =>
       if py_eq path (VStr "foo/bar")
       then inr (VDict [("data", VDict [("data", VDict [("pw", VStr "shhh")])])])
       else inr VNone |}.

(** The same world without the [hvac] package. *)
Definition example_world_no_hvac : world :=
  {| HAS_HVAC := false;
     environ := environ example_world;
     auth_approle := auth_approle example_world;
     read_secret := read_secret example_world;
     read_secret_version := read_secret_version example_world |}.

Definition env_ref (name : string) : value :=
  VDict [("type", VStr "env"); ("key", VStr name)].

Definition vault_ref (path key : string) : value :=
  VDict [("type", VStr "vault"); ("path", VStr path); ("key", VStr key)].

Definition example_spec : secrets :=
  [("t1", [("s1", VStr "v1")]);
   ("t2", [("s2", env_ref "MYVAR")]);
   ("t3", [("s3", vault_ref "foo/bar" "pw")])].

Definition token_and_role_config : configuration :=
  [("vault_addr", VStr "http://127.0.0.1:8200");
   ("vault_token", VStr "s.token");
   ("vault_role_id", VStr "role");
   ("vault_role_secret", VStr "secret")].

Definition role_config : configuration :=
  [("vault_addr", VStr "http://127.0.0.1:8200");
   ("vault_kv_version", VInt 1);
   ("vault_role_id", VStr "role");
   ("vault_role_secret", VStr "secret")].

Definition address_only_config : configuration :=
  [("vault_addr", VStr "http://127.0.0.1:8200")].

(** A store of KV version 1 holding [{"data": {"pw": "shhh"}}] at
    [foo/bar]. *)
Definition example_world_kv1 : world :=
  {| HAS_HVAC := true;
     environ := environ example_world;
     auth_approle := auth_approle example_world;
     read_secret := fun _ path =>
       if py_eq path (VStr "foo/bar")
       then inr (VDict [("data", VDict [("pw", VStr "shhh")])])
       else inr VNone;
     read_secret_version := no_client_call |}.

Definition client_of_version (ver : string) : client :=
  {| url := VNone; default_kv_version := ver; token := None |}.

(** The data of a payload, as the loader extracts it, when the payload
    has the shape of its KV version. *)
Definition payload_data (is_kv1 : bool) (payload : value) : option (dict value) :=
  match payload with
  | VDict p =>
      if is_kv1 then
        match dict_get "data" p with Some (VDict data) => Some data | _ => None end
      else
        match dict_get "data" p with
        | Some (VDict inner) =>
            match dict_get "data" inner with
            | Some (VDict data) => Some data
            | _ => None
            end
        | _ => None
        end
  | _ => None
  end.

(** A store that answers every versioned read with a payload whose
    data is [None], as for a deleted version. *)
Definition deleted_version_world : world :=
  {| HAS_HVAC := true;
     environ := fun _ => None;
     auth_approle := fun _ _ _ => inl "connection refused";
     read_secret := no_client_call;
     read_secret_version := fun _ _ =>
       inr (VDict [("data", VDict [("data", VNone);
                                   ("metadata", VDict [("destroyed", VBool true)])])]) |}.

(** Every value of the specification is taken by the inline loader. *)
Definition only_literals (secrets_info : secrets) : bool :=
  forallb (fun tk => forallb (fun kv => is_inline (snd kv)) (snd tk)) secrets_info.

Definition literal_spec : secrets :=
  [("t1", [("s1", VStr "v1"); ("s2", VDict [("type", VStr "file")])]);
   ("t2", [("s3", VInt 3)])].

Definition missing_variable_spec : secrets :=
  [("t1", [("s1", VStr "v1")]);
   ("t2", [("s2", env_ref "MYVAR"); ("s4", env_ref "MISSING")])].

(** A store that refuses every read. *)
Definition refusing_world : world :=
  {| HAS_HVAC := true;
     environ := environ example_world;
     auth_approle := auth_approle example_world;
     read_secret := fun _ _ => inl "permission denied";
     read_secret_version := fun _ _ => inl "permission denied" |}.

(** The example of the specification: the only secret of [t4] is a vault
    reference to a path at which the store has nothing. *)
Definition unresolvable_spec : secrets :=
  [("t1", [("s1", VStr "v1")]);
   ("t4", [("s4", VDict [("type", VStr "vault"); ("path", VStr "missing")])])].

(** ** Store reads and role answers *)

(** The paths a trace reads from the store, in order. *)
Definition reads (tr : list event) : list value :=
  flat_map (fun e =>
              match e with
              | ReadSecret path | ReadSecretVersion path => [path]
              | _ => []
              end) tr.

(** The paths of the vault-tagged entries that have one, in iteration
    order. *)
Definition vault_paths (keys : dict value) : list value :=
  flat_map (fun kv =>
              match snd kv with
              | VDict d =>
                  if eq_str (py_get d "type") "vault"
                     && negb (is_none (py_get d "path"))
                  then [py_get d "path"]
                  else []
              | _ => []
              end) keys.

Definition spec_vault_paths (secrets_info : secrets) : list value :=
  flat_map (fun tk => vault_paths (snd tk)) secrets_info.

(** The read a client makes for its KV version. *)
Definition read_of (w : world) (c : client) (path : value) : string + value :=
  if String.eqb (default_kv_version c) "1"
  then read_secret w c path
  else read_secret_version w c path.

(** A store whose role exchange returns [answer]. *)
Definition role_world (answer : value) : world :=
  {| HAS_HVAC := true;
     environ := fun _ => None;
     auth_approle := fun _ _ _ => inr answer;
     read_secret := no_client_call;
     read_secret_version := no_client_call |}.

Definition role_only_config : configuration :=
  [("vault_role_id", VStr "role"); ("vault_role_secret", VStr "secret")].

(** Two vault-tagged entries with a path, one without, and a literal. *)
Definition two_paths_spec : secrets :=
  [("t3", [("s3", vault_ref "foo/bar" "pw"); ("s1", VStr "v1");
           ("s5", VDict [("type", VStr "vault")])]);
   ("t4", [("s4", VDict [("type", VStr "vault"); ("path", VStr "missing")])])].

(** The reasons for which the store loader leaves an entry out: it has no
    path, or the read returns an empty payload, or it names a key that
    the data dict of the payload does not have. *)
Definition skipped (w : world) (c : client) (d : dict value) : Prop :=
  py_get d "path" = VNone \/
  (py_get d "path" <> VNone /\
   exists payload,
     read_of w c (py_get d "path") = inr payload /\
     (truthy payload = false \/
      exists data name,
        payload_data (String.eqb (default_kv_version c) "1") payload = Some data /\
        dict_get "key" d = Some (VStr name) /\
        dict_get name data = None)).

(** A payload that is not empty and whose data, as the loader extracts
    it for the KV version, is [None]: the field is absent or null. *)
Definition null_data (is_kv1 : bool) (payload : value) : Prop :=
  match payload with
  | VDict p =>
      p <> [] /\
      if is_kv1 then py_get p "data" = VNone
      else exists inner,
          py_get_default p "data" (VDict []) = VDict inner /\
          py_get inner "data" = VNone
  | _ => False
  end.

(** The read event of a client. *)
Definition read_event (c : client) (path : value) : event :=
  if String.eqb (default_kv_version c) "1"
  then ReadSecret path
  else ReadSecretVersion path.

(** ** The two kinds of read *)

(** The paths a trace reads with [read_secret] ([v1 = true]) or with
    [read_secret_version] ([v1 = false]), in order. *)
Definition reads_of_kind (v1 : bool) (tr : list event) : list value :=
  flat_map (fun e =>
              match e with
              | ReadSecret path => if v1 then [path] else []
              | ReadSecretVersion path => if v1 then [] else [path]
              | _ => []
              end) tr.

(** An entry at which the store loader does not raise: it is left out,
    or the read returns a payload with a data dict and the entry names
    no key or names one by a string. *)
Definition readable (w : world) (c : client) (d : dict value) : Prop :=
  skipped w c d \/
  (py_get d "path" <> VNone /\
   exists payload data,
     read_of w c (py_get d "path") = inr payload /\
     payload_data (String.eqb (default_kv_version c) "1") payload = Some data /\
     (dict_get "key" d = None \/ exists name, dict_get "key" d = Some (VStr name))).

(** Version 1 in the configuration, and two vault-tagged entries of one
    target. *)
Definition kv1_config : configuration := [("vault_kv_version", VStr "1")].

Definition two_entries_spec : secrets :=
  [("t1", [("s1", VStr "v1")]);
   ("t3", [("s3", vault_ref "foo/bar" "pw");
           ("s6", VDict [("type", VStr "vault"); ("path", VStr "foo/bar")])])].

(** * Properties *)

(** ** Dictionaries *)

Section DictFacts.
Context {A : Type}.
Implicit Types (d : dict A) (k : string) (v : A).

Lemma dict_get_set_eq k v d : dict_get k (dict_set k v d) = Some v.
Proof.
  induction d as [|[k' v'] r IH]; simpl.
  - now rewrite String.eqb_refl.
  - destruct (String.eqb_spec k k') as [->|Hne]; simpl.
    + now rewrite String.eqb_refl.
    + destruct (String.eqb_spec k k'); [contradiction|exact IH].
Qed.

Lemma dict_get_set_neq k k' v d :
  k <> k' -> dict_get k (dict_set k' v d) = dict_get k d.
Proof.
  intros Hne. induction d as [|[k0 v0] r IH]; simpl.
  - destruct (String.eqb_spec k k'); [contradiction|reflexivity].
  - destruct (String.eqb_spec k' k0) as [->|H0]; simpl.
    + destruct (String.eqb_spec k k0); [contradiction|reflexivity].
    + destruct (String.eqb_spec k k0); [reflexivity|exact IH].
Qed.

Lemma In_dict_set k v d x : In x (dict_set k v d) -> x = (k, v) \/ In x d.
Proof.
  induction d as [|[k' v'] r IH]; simpl.
  - intros [<-|[]]. now left.
  - destruct (String.eqb_spec k k') as [->|Hne]; simpl.
    + intros [<-|H]; auto.
    + intros [<-|H]; auto. destruct (IH H); auto.
Qed.

Lemma keys_dict_set k v d k' :
  In k' (keys_of (dict_set k v d)) <-> k' = k \/ In k' (keys_of d).
Proof.
  unfold keys_of. induction d as [|[k0 v0] r IH]; simpl.
  - intuition.
  - destruct (String.eqb_spec k k0) as [->|Hne]; simpl.
    + intuition.
    + rewrite IH. intuition.
Qed.

Lemma wf_dict_set k v d : wf_dict d -> wf_dict (dict_set k v d).
Proof.
  unfold wf_dict. induction d as [|[k0 v0] r IH]; simpl; intros Hd.
  - constructor; [intros []|constructor].
  - inversion Hd as [|? ? Hnin Hr]; subst.
    destruct (String.eqb_spec k k0) as [->|Hne]; simpl.
    + now constructor.
    + constructor; [|now apply IH].
      intros Hin. apply (keys_dict_set k v r k0) in Hin.
      destruct Hin as [->|Hin]; [now apply Hne|now apply Hnin].
Qed.

Lemma dict_set_not_nil k v d : dict_set k v d <> [].
Proof.
  destruct d as [|[k' v'] r]; simpl; [discriminate|].
  destruct (String.eqb k k'); discriminate.
Qed.

Lemma dict_get_In k v d : dict_get k d = Some v -> In (k, v) d.
Proof.
  induction d as [|[k' v'] r IH]; simpl; [discriminate|].
  destruct (String.eqb_spec k k') as [->|Hne].
  - intros [= ->]. now left.
  - intros H. right. now apply IH.
Qed.

Lemma dict_get_None k d : dict_get k d = None <-> ~ In k (keys_of d).
Proof.
  unfold keys_of. induction d as [|[k' v'] r IH]; simpl.
  - intuition.
  - destruct (String.eqb_spec k k') as [->|Hne].
    + split; [discriminate|]. intros H. exfalso. apply H. now left.
    + rewrite IH. intuition congruence.
Qed.

Lemma In_dict_get k v d : wf_dict d -> In (k, v) d -> dict_get k d = Some v.
Proof.
  unfold wf_dict. induction d as [|[k' v'] r IH]; simpl; intros Hd; [intros []|].
  inversion Hd as [|? ? Hnin Hr]; subst.
  intros [[= -> ->]|Hin].
  - now rewrite String.eqb_refl.
  - destruct (String.eqb_spec k k') as [->|Hne]; [|now apply IH].
    exfalso. apply Hnin. change k' with (fst (k', v)). now apply in_map.
Qed.

Lemma In_dict_pop k d x : In x (dict_pop k d) -> In x d.
Proof.
  induction d as [|[k' v'] r IH]; simpl; [intros []|].
  destruct (String.eqb k k'); simpl; intuition.
Qed.

Lemma wf_dict_pop k d : wf_dict d -> wf_dict (dict_pop k d).
Proof.
  unfold wf_dict. induction d as [|[k' v'] r IH]; simpl; intros Hd; [constructor|].
  inversion Hd as [|? ? Hnin Hr]; subst.
  destruct (String.eqb k k'); simpl; [exact Hr|].
  constructor; [|now apply IH].
  intros Hin. apply Hnin. apply in_map_iff in Hin as [x [Hx Hin]].
  apply In_dict_pop in Hin. rewrite <- Hx. now apply in_map.
Qed.

Lemma dict_get_pop_eq k d : wf_dict d -> dict_get k (dict_pop k d) = None.
Proof.
  unfold wf_dict. induction d as [|[k' v'] r IH]; simpl; intros Hd; [reflexivity|].
  inversion Hd as [|? ? Hnin Hr]; subst.
  destruct (String.eqb_spec k k') as [->|Hne]; simpl.
  - now apply dict_get_None.
  - destruct (String.eqb_spec k k'); [contradiction|now apply IH].
Qed.

Lemma dict_get_pop_neq k k' d :
  k <> k' -> dict_get k (dict_pop k' d) = dict_get k d.
Proof.
  intros Hne. induction d as [|[k0 v0] r IH]; simpl; [reflexivity|].
  destruct (String.eqb_spec k' k0) as [->|H0]; simpl.
  - destruct (String.eqb_spec k k0); [contradiction|reflexivity].
  - destruct (String.eqb_spec k k0); [reflexivity|exact IH].
Qed.

(** A fresh key is appended. *)
Lemma dict_set_fresh k v d :
  ~ In k (keys_of d) -> dict_set k v d = (d ++ [(k, v)])%list.
Proof.
  unfold keys_of. induction d as [|[k' v'] r IH]; simpl; intros Hnin; [reflexivity|].
  destruct (String.eqb_spec k k') as [->|Hne].
  - exfalso. apply Hnin. now left.
  - f_equal. apply IH. intros H. apply Hnin. now right.
Qed.

(** *** [update] *)

Lemma dict_update_cons d k v o :
  dict_update d ((k, v) :: o) = dict_update (dict_set k v d) o.
Proof. reflexivity. Qed.

Lemma dict_get_update k d o :
  wf_dict o ->
  dict_get k (dict_update d o) =
  match dict_get k o with Some x => Some x | None => dict_get k d end.
Proof.
  unfold wf_dict. revert d. induction o as [|[k' v'] r IH]; intros d Ho; [reflexivity|].
  inversion Ho as [|? ? Hnin Hr]; subst.
  rewrite dict_update_cons, IH by exact Hr. simpl.
  destruct (String.eqb_spec k k') as [->|Hne].
  - apply dict_get_None in Hnin. rewrite Hnin. apply dict_get_set_eq.
  - now rewrite dict_get_set_neq.
Qed.

Lemma In_dict_update d o x : In x (dict_update d o) -> In x d \/ In x o.
Proof.
  revert d. induction o as [|[k' v'] r IH]; intros d; [now left|].
  rewrite dict_update_cons. intros H. apply IH in H as [H|H].
  - apply In_dict_set in H as [->|H]; [right; now left|now left].
  - right. now right.
Qed.

Lemma wf_dict_update d o : wf_dict d -> wf_dict (dict_update d o).
Proof.
  revert d. induction o as [|[k' v'] r IH]; intros d Hd; [exact Hd|].
  rewrite dict_update_cons. apply IH. now apply wf_dict_set.
Qed.

Lemma dict_update_not_nil d o : o <> [] -> dict_update d o <> [].
Proof.
  revert d. induction o as [|[k' v'] r IH]; intros d Ho; [contradiction|].
  rewrite dict_update_cons. destruct r as [|x r'].
  - apply dict_set_not_nil.
  - apply IH. discriminate.
Qed.

Lemma dict_update_fresh d o :
  NoDup (keys_of d ++ keys_of o) -> dict_update d o = (d ++ o)%list.
Proof.
  revert d. induction o as [|[k' v'] r IH]; intros d Hnd.
  - now rewrite app_nil_r.
  - rewrite dict_update_cons.
    assert (Hk : ~ In k' (keys_of d)).
    { intros Hin. apply NoDup_remove_2 in Hnd. apply Hnd.
      apply in_or_app. now left. }
    rewrite dict_set_fresh by exact Hk. rewrite IH.
    + now rewrite <- app_assoc.
    + unfold keys_of in *. rewrite map_app, <- app_assoc. exact Hnd.
Qed.

Lemma dict_update_nil o : wf_dict o -> dict_update (A := A) [] o = o.
Proof. intros Ho. apply (@dict_update_fresh [] o). exact Ho. Qed.
End DictFacts.

Section DictFacts2.
Context {A : Type}.
Implicit Types (d : dict A) (k : string) (v : A).

Lemma dict_set_set k v v' d : dict_set k v (dict_set k v' d) = dict_set k v d.
Proof.
  induction d as [|[k0 v0] r IH]; simpl.
  - now rewrite String.eqb_refl.
  - destruct (String.eqb_spec k k0) as [->|Hne]; simpl.
    + now rewrite String.eqb_refl.
    + destruct (String.eqb_spec k k0); [contradiction|now rewrite IH].
Qed.

Lemma In_pop_set k v d x : In x (dict_pop k (dict_set k v d)) -> In x d.
Proof.
  induction d as [|[k0 v0] r IH]; simpl.
  - now rewrite String.eqb_refl.
  - destruct (String.eqb_spec k k0) as [->|Hne]; simpl.
    + rewrite String.eqb_refl. auto.
    + destruct (String.eqb_spec k k0); [contradiction|].
      simpl. intros [<-|H]; auto.
Qed.
End DictFacts2.

(** ** The monad *)

Lemma result_bind {A B} (m : M A) (f : A -> M B) :
  result (bind m f) =
  match result m with inl e => inl e | inr a => result (f a) end.
Proof.
  destruct m as [t [e|a]]; simpl; [reflexivity|].
  now destruct (f a).
Qed.

Lemma trace_bind {A B} (m : M A) (f : A -> M B) :
  trace (bind m f) =
  (trace m ++ match result m with inl _ => [] | inr a => trace (f a) end)%list.
Proof.
  destruct m as [t [e|a]]; simpl; [now rewrite app_nil_r|].
  now destruct (f a).
Qed.

Lemma result_bind_inr {A B} (m : M A) (f : A -> M B) b :
  result (bind m f) = inr b ->
  exists a, result m = inr a /\ result (f a) = inr b.
Proof.
  rewrite result_bind. destruct (result m) as [e|a]; [discriminate|].
  intros H. now exists a.
Qed.

Lemma bind_pure {A B} (a : A) (f : A -> M B) : bind (ret a) f = f a.
Proof. unfold bind, ret. now destruct (f a). Qed.

Lemma M_eta {A} (m : M A) : m = (trace m, result m).
Proof. now destruct m. Qed.

Lemma emit_bind {B} (e : event) (k : M B) :
  bind (emit e) (fun _ => k) = (e :: trace k, result k).
Proof. unfold bind, emit. now destruct k. Qed.

Lemma result_emit {B} (e : event) (k : M B) :
  result (bind (emit e) (fun _ => k)) = result k.
Proof. now rewrite emit_bind. Qed.

Lemma ret_inr {A} (a b : A) : result (ret a) = inr b -> b = a.
Proof. now intros [= ->]. Qed.

(** ** Closing a target and merging *)

Lemma close_target_eq t m s :
  close_target t m s =
  if dict_is_empty m then dict_pop t (dict_set t m s) else dict_set t m s.
Proof. unfold close_target. now rewrite dict_set_set. Qed.

Lemma dict_get_close_eq t m s :
  wf_dict s ->
  dict_get t (close_target t m s) = if dict_is_empty m then None else Some m.
Proof.
  intros Hs. rewrite close_target_eq. destruct (dict_is_empty m).
  - apply dict_get_pop_eq. now apply wf_dict_set.
  - apply dict_get_set_eq.
Qed.

Lemma dict_get_close_neq t t' m s :
  t' <> t -> dict_get t' (close_target t m s) = dict_get t' s.
Proof.
  intros Hne. rewrite close_target_eq. destruct (dict_is_empty m).
  - rewrite dict_get_pop_neq by exact Hne. now apply dict_get_set_neq.
  - now apply dict_get_set_neq.
Qed.

Lemma wf_close_target t m s : wf_dict s -> wf_dict (close_target t m s).
Proof.
  intros Hs. rewrite close_target_eq. destruct (dict_is_empty m).
  - apply wf_dict_pop. now apply wf_dict_set.
  - now apply wf_dict_set.
Qed.

Lemma In_close_target t m s x :
  In x (close_target t m s) -> In x s \/ (x = (t, m) /\ m <> []).
Proof.
  rewrite close_target_eq. destruct m as [|e m']; simpl.
  - intros H. left. now apply In_pop_set in H.
  - intros H. apply In_dict_set in H as [->|H]; [right|now left].
    split; [reflexivity|discriminate].
Qed.

Lemma lookup2_close_target t t' k m s :
  wf_dict s ->
  lookup2 t' k (close_target t m s) =
  if String.eqb t' t then dict_get k m else lookup2 t' k s.
Proof.
  intros Hs. unfold lookup2. destruct (String.eqb_spec t' t) as [->|Hne].
  - rewrite dict_get_close_eq by exact Hs. now destruct m.
  - now rewrite dict_get_close_neq.
Qed.

Lemma good_nil : good [].
Proof. split; [constructor|intros t m []]. Qed.

Lemma good_close_target t m s :
  good s -> wf_dict m -> good (close_target t m s).
Proof.
  intros [Hs Hall] Hm. split; [now apply wf_close_target|].
  intros t' m' Hin. apply In_close_target in Hin as [Hin|[[= -> ->] Hne]].
  - exact (Hall t' m' Hin).
  - now split.
Qed.

Lemma merge_target_eq s t m :
  merge_target s (t, m) =
  dict_set t (dict_update (match dict_get t s with Some c => c | None => [] end) m) s.
Proof.
  unfold merge_target, dict_mem, secrets, dict in *.
  destruct (dict_get t s) as [c|] eqn:E; cbn.
  - now rewrite E.
  - now rewrite dict_get_set_eq, dict_set_set.
Qed.

Lemma merge_into_cons s x p :
  merge_into s (x :: p) = merge_into (merge_target s x) p.
Proof. reflexivity. Qed.

Lemma lookup2_merge_target s t m t' k :
  wf_dict m ->
  lookup2 t' k (merge_target s (t, m)) =
  if String.eqb t' t
  then match dict_get k m with Some x => Some x | None => lookup2 t' k s end
  else lookup2 t' k s.
Proof.
  intros Hm. rewrite merge_target_eq. unfold lookup2.
  destruct (String.eqb_spec t' t) as [->|Hne].
  - rewrite dict_get_set_eq, dict_get_update by exact Hm.
    now destruct (dict_get t s).
  - now rewrite dict_get_set_neq.
Qed.

(** The later dict wins on a (target, key) both bind. *)
Lemma lookup2_merge_into s p t k :
  good p ->
  lookup2 t k (merge_into s p) =
  match lookup2 t k p with Some x => Some x | None => lookup2 t k s end.
Proof.
  revert s. induction p as [|[t' m'] r IH]; intros s Hp; [reflexivity|].
  destruct Hp as [Hwf Hall]. unfold wf_dict in Hwf. simpl in Hwf.
  inversion Hwf as [|? ? Hnin Hr]; subst.
  assert (Hgr : good r).
  { split; [exact Hr|]. intros t0 m0 H0. apply (Hall t0 m0). now right. }
  assert (Hm' : wf_dict m') by (apply (Hall t' m'); now left).
  rewrite merge_into_cons, IH by exact Hgr.
  rewrite lookup2_merge_target by exact Hm'.
  unfold lookup2. simpl.
  destruct (String.eqb_spec t t') as [->|Hne]; [|reflexivity].
  apply dict_get_None in Hnin. unfold secrets, dict in *. rewrite Hnin.
  reflexivity.
Qed.

Lemma good_merge_target s t m :
  good s -> wf_dict m -> m <> [] -> good (merge_target s (t, m)).
Proof.
  intros [Hs Hall] Hm Hne. rewrite merge_target_eq. split.
  - now apply wf_dict_set.
  - intros t0 m0 Hin. apply In_dict_set in Hin as [[= -> ->]|Hin]; [|exact (Hall t0 m0 Hin)].
    split; [|now apply dict_update_not_nil].
    apply wf_dict_update. destruct (dict_get t s) as [c|] eqn:E; [|constructor].
    apply dict_get_In in E. now apply (Hall t c).
Qed.

Lemma good_merge_into s p : good s -> good p -> good (merge_into s p).
Proof.
  revert s. induction p as [|[t m] r IH]; intros s Hs Hp; [exact Hs|].
  rewrite merge_into_cons. destruct Hp as [Hwf Hall].
  unfold wf_dict in Hwf. simpl in Hwf. inversion Hwf; subst.
  destruct (Hall t m) as [Hm Hne]; [now left|].
  apply IH.
  - now apply good_merge_target.
  - split; [assumption|]. intros t0 m0 H0. apply (Hall t0 m0). now right.
Qed.

(** ** Specifications and references *)

Lemma wf_spec_cons t keys rest :
  wf_spec ((t, keys) :: rest) ->
  wf_dict keys /\ dict_get t rest = None /\ wf_spec rest.
Proof.
  intros [Hwf Hall]. unfold wf_dict in Hwf. simpl in Hwf.
  inversion Hwf as [|? ? Hnin Hr]; subst. repeat split.
  - apply (Hall t keys). now left.
  - now apply dict_get_None.
  - exact Hr.
  - intros t0 k0 H0. apply (Hall t0 k0). now right.
Qed.

Lemma tagged_exclusive ref :
  tagged "env" ref = true -> tagged "vault" ref = false.
Proof.
  destruct ref as [| | | | |d]; try discriminate. simpl.
  destruct (py_get d "type") as [| | |s| |]; try discriminate. simpl.
  destruct (String.eqb_spec s "env") as [->|]; [reflexivity|discriminate].
Qed.

Ltac inv_result H :=
  repeat
    match type of H with
    | result (bind (emit _) _) = _ => rewrite result_emit in H
    | result (bind _ _) = inr _ =>
        let a := fresh "a" in
        let Ha := fresh "Ha" in
        apply result_bind_inr in H as (a & Ha & H)
    | result (ret _) = inr _ => apply ret_inr in H
    | result (raise _) = inr _ => discriminate H
    | result (if ?b then _ else _) = inr _ => destruct b eqn:?
    | result (match ?x with _ => _ end) = inr _ => destruct x eqn:?
    end.

(** ** load_inline_secrets *)

Lemma inline_keys_step key value rest acc :
  inline_keys ((key, value) :: rest) acc =
  inline_keys rest (if is_inline value then dict_set key value acc else acc).
Proof.
  unfold is_inline. destruct value as [| | | | |d]; try reflexivity.
  simpl. now destruct (eq_str (py_get d "type") "env" || eq_str (py_get d "type") "vault").
Qed.

Lemma wf_inline_keys keys acc : wf_dict acc -> wf_dict (inline_keys keys acc).
Proof.
  revert acc. induction keys as [|[key value] rest IH]; intros acc Hacc; [exact Hacc|].
  rewrite inline_keys_step. apply IH.
  destruct (is_inline value); [now apply wf_dict_set|exact Hacc].
Qed.

Lemma inline_keys_get keys acc k :
  wf_dict keys ->
  dict_get k (inline_keys keys acc) =
  match dict_get k keys with
  | Some ref => if is_inline ref then Some ref else dict_get k acc
  | None => dict_get k acc
  end.
Proof.
  revert acc. induction keys as [|[key value] rest IH]; intros acc Hk; [reflexivity|].
  unfold wf_dict in Hk. simpl in Hk. inversion Hk as [|? ? Hnin Hr]; subst.
  rewrite inline_keys_step, IH by exact Hr. simpl.
  destruct (String.eqb_spec k key) as [->|Hne].
  - apply dict_get_None in Hnin. rewrite Hnin.
    destruct (is_inline value); [apply dict_get_set_eq|reflexivity].
  - destruct (is_inline value); [|reflexivity].
    now rewrite dict_get_set_neq.
Qed.

Lemma good_inline_targets secrets_info s :
  good s -> good (inline_targets secrets_info s).
Proof.
  revert s. induction secrets_info as [|[t keys] rest IH]; intros s Hs; [exact Hs|].
  simpl. apply IH. apply good_close_target; [exact Hs|].
  apply wf_inline_keys. constructor.
Qed.

Lemma lookup2_inline_targets secrets_info s t k :
  wf_spec secrets_info -> wf_dict s ->
  lookup2 t k (inline_targets secrets_info s) =
  match dict_get t secrets_info with
  | Some keys =>
      match dict_get k keys with
      | Some ref => if is_inline ref then Some ref else None
      | None => None
      end
  | None => lookup2 t k s
  end.
Proof.
  revert s. induction secrets_info as [|[t' keys] rest IH]; intros s Hspec Hs;
    [reflexivity|].
  apply wf_spec_cons in Hspec as (Hkeys & Hfresh & Hrest).
  simpl. rewrite IH by (try apply wf_close_target; assumption).
  destruct (String.eqb_spec t t') as [->|Hne].
  - unfold secrets, dict in *. rewrite Hfresh.
    rewrite lookup2_close_target by exact Hs.
    rewrite String.eqb_refl, inline_keys_get by exact Hkeys.
    destruct (dict_get k keys) as [ref|]; [|reflexivity].
    now destruct (is_inline ref).
  - destruct (dict_get t rest); [reflexivity|].
    rewrite lookup2_close_target by exact Hs.
    destruct (String.eqb_spec t t'); [contradiction|reflexivity].
Qed.

(** ** load_secrets_from_env *)

Lemma env_keys_step w key value rest acc :
  env_keys w ((key, value) :: rest) acc =
  if tagged "env" value then
    match value with
    | VDict d =>
        match dict_get "key" d with
        | Some (VStr name) =>
            match environ w name with
            | Some v => env_keys w rest (dict_set key (VStr v) acc)
            | None => raise (InvalidExperiment (env_missing ++ name))
            end
        | Some _ => raise TypeError
        | None => raise (KeyError "key")
        end
    | _ => env_keys w rest acc
    end
  else env_keys w rest acc.
Proof.
  destruct value as [| | | | |d]; try reflexivity. simpl.
  destruct (eq_str (py_get d "type") "env"); [|reflexivity].
  destruct (dict_get "key" d) as [[| | |name| |]|]; try reflexivity.
  rewrite bind_pure. reflexivity.
Qed.

Lemma env_keys_trace w keys acc : trace (env_keys w keys acc) = [].
Proof.
  revert acc. induction keys as [|[key value] rest IH]; intros acc; [reflexivity|].
  rewrite env_keys_step. destruct (tagged "env" value); [|apply IH].
  destruct value as [| | | | |d]; try apply IH.
  destruct (dict_get "key" d) as [[| | |name| |]|]; try reflexivity.
  destruct (environ w name); [apply IH|reflexivity].
Qed.

Lemma wf_env_keys w keys acc m :
  wf_dict acc -> result (env_keys w keys acc) = inr m -> wf_dict m.
Proof.
  revert acc. induction keys as [|[key value] rest IH]; intros acc Hacc H.
  - injection H as <-. exact Hacc.
  - rewrite env_keys_step in H.
    destruct (tagged "env" value); [|now apply (IH acc)].
    destruct value as [| | | | |d]; try now apply (IH acc).
    destruct (dict_get "key" d) as [[| | |name| |]|]; try discriminate H.
    destruct (environ w name) as [v|]; [|discriminate H].
    apply (IH _ (wf_dict_set key (VStr v) Hacc) H).
Qed.

Lemma env_keys_get w keys acc m k :
  wf_dict keys ->
  result (env_keys w keys acc) = inr m ->
  dict_get k m =
  match dict_get k keys with
  | Some ref =>
      match env_value w ref with Some v => Some v | None => dict_get k acc end
  | None => dict_get k acc
  end.
Proof.
  revert acc. induction keys as [|[key value] rest IH]; intros acc Hk H.
  - injection H as <-. reflexivity.
  - unfold wf_dict in Hk. simpl in Hk. inversion Hk as [|? ? Hnin Hr]; subst.
    apply dict_get_None in Hnin.
    rewrite env_keys_step in H. simpl.
    destruct (String.eqb_spec k key) as [->|Hne].
    + destruct value as [| | | | |d]; simpl in *;
        try (rewrite (IH _ Hr H), Hnin; reflexivity).
      destruct (eq_str (py_get d "type") "env");
        [|rewrite (IH _ Hr H), Hnin; reflexivity].
      destruct (dict_get "key" d) as [[| | |name| |]|]; try discriminate H.
      destruct (environ w name) as [v|]; [|discriminate H].
      rewrite (IH _ Hr H), Hnin. simpl. apply dict_get_set_eq.
    + destruct value as [| | | | |d]; simpl in *; try exact (IH _ Hr H).
      destruct (eq_str (py_get d "type") "env"); [|exact (IH _ Hr H)].
      destruct (dict_get "key" d) as [[| | |name| |]|]; try discriminate H.
      destruct (environ w name) as [v|]; [|discriminate H].
      rewrite (IH _ Hr H). rewrite dict_get_set_neq by exact Hne. reflexivity.
Qed.

Lemma good_env_targets w secrets_info s r :
  good s -> result (env_targets w secrets_info s) = inr r -> good r.
Proof.
  revert s. induction secrets_info as [|[t keys] rest IH]; intros s Hs H.
  - injection H as <-. exact Hs.
  - simpl in H. apply result_bind_inr in H as (m & Hm & H).
    apply (IH (close_target t m s)); [|exact H].
    apply good_close_target; [exact Hs|].
    apply (wf_env_keys w keys (acc := [])); [constructor|exact Hm].
Qed.

Lemma lookup2_env_targets w secrets_info s r t k :
  wf_spec secrets_info -> wf_dict s ->
  result (env_targets w secrets_info s) = inr r ->
  lookup2 t k r =
  match dict_get t secrets_info with
  | Some keys =>
      match dict_get k keys with
      | Some ref => env_value w ref
      | None => None
      end
  | None => lookup2 t k s
  end.
Proof.
  revert s. induction secrets_info as [|[t' keys] rest IH]; intros s Hspec Hs H.
  - injection H as <-. reflexivity.
  - apply wf_spec_cons in Hspec as (Hkeys & Hfresh & Hrest).
    simpl in H. apply result_bind_inr in H as (m & Hm & H).
    rewrite (IH _ Hrest (wf_close_target t' m Hs) H). simpl.
    destruct (String.eqb_spec t t') as [->|Hne].
    + unfold secrets, dict in *. rewrite Hfresh.
      rewrite lookup2_close_target by exact Hs.
      rewrite String.eqb_refl, (@env_keys_get w keys [] m k Hkeys Hm).
      destruct (dict_get k keys) as [ref|]; [|reflexivity].
      now destruct (env_value w ref).
    + destruct (dict_get t rest); [reflexivity|].
      rewrite lookup2_close_target by exact Hs.
      destruct (String.eqb_spec t t'); [contradiction|reflexivity].
Qed.

(** *** When the environment loader returns and when it raises *)

Lemma env_keys_returns w keys acc :
  all_resolvable w keys = true ->
  exists m, result (env_keys w keys acc) = inr m.
Proof.
  revert acc. induction keys as [|[key value] rest IH]; intros acc Hall.
  - now exists acc.
  - simpl in Hall. apply andb_true_iff in Hall as [Hv Hrest].
    rewrite env_keys_step. unfold resolvable in Hv.
    destruct (tagged "env" value) eqn:Ht; [|now apply IH].
    destruct value as [| | | | |d]; try discriminate Ht.
    simpl in Ht, Hv. rewrite Ht in Hv.
    destruct (dict_get "key" d) as [[| | |name| |]|]; try discriminate Hv.
    simpl in Hv. destruct (environ w name) as [v|]; [|discriminate Hv].
    now apply IH.
Qed.

Lemma env_keys_raises w kpre key ref kpost acc :
  all_resolvable w kpre = true ->
  tagged "env" ref = true -> env_value w ref = None ->
  result (env_keys w (kpre ++ (key, ref) :: kpost)%list acc) = inl (env_error w ref).
Proof.
  revert acc. induction kpre as [|[key0 value] rest IH]; intros acc Hall Ht Hv.
  - simpl app. rewrite env_keys_step, Ht.
    destruct ref as [| | | | |d]; try discriminate Ht.
    simpl in *. rewrite Ht in Hv.
    destruct (dict_get "key" d) as [[| | |name| |]|]; try reflexivity.
    simpl in Hv. destruct (environ w name); [discriminate Hv|reflexivity].
  - simpl in Hall. apply andb_true_iff in Hall as [Hv0 Hrest].
    simpl app. rewrite env_keys_step. unfold resolvable in Hv0.
    destruct (tagged "env" value) eqn:Ht0; [|now apply IH].
    destruct value as [| | | | |d]; try discriminate Ht0.
    simpl in Ht0, Hv0. rewrite Ht0 in Hv0.
    destruct (dict_get "key" d) as [[| | |name| |]|]; try discriminate Hv0.
    simpl in Hv0. destruct (environ w name) as [v|]; [|discriminate Hv0].
    now apply IH.
Qed.

Lemma env_targets_returns w secrets_info s :
  all_targets_resolvable w secrets_info = true ->
  exists r, result (env_targets w secrets_info s) = inr r.
Proof.
  revert s. induction secrets_info as [|[t keys] rest IH]; intros s Hall.
  - now exists s.
  - simpl in Hall. apply andb_true_iff in Hall as [Hk Hrest].
    destruct (env_keys_returns w keys [] Hk) as [m Hm].
    simpl. rewrite result_bind, Hm. now apply IH.
Qed.

Lemma env_targets_raises w pre t kpre key ref kpost post s :
  all_targets_resolvable w pre = true ->
  all_resolvable w kpre = true ->
  tagged "env" ref = true -> env_value w ref = None ->
  result (env_targets w
            (pre ++ (t, (kpre ++ (key, ref) :: kpost)%list) :: post)%list s)
  = inl (env_error w ref).
Proof.
  revert s. induction pre as [|[t0 keys] rest IH]; intros s Hall Hk Ht Hv.
  - simpl. rewrite result_bind, env_keys_raises by assumption. reflexivity.
  - simpl in Hall. apply andb_true_iff in Hall as [Hk0 Hrest].
    destruct (env_keys_returns w keys [] Hk0) as [m Hm].
    simpl. rewrite result_bind, Hm. now apply IH.
Qed.

(** ** load_secrets_from_vault *)

Lemma vault_entry_result w cl key d acc m :
  result (vault_entry w cl key d acc) = inr m ->
  m = acc \/ exists v, m = dict_set key v acc.
Proof.
  unfold vault_entry. intros H.
  destruct (is_none (py_get d "path")).
  - inv_result H. now left.
  - destruct cl as [c|]; [|discriminate H].
    apply result_bind_inr in H as (payload & _ & H).
    destruct (negb (truthy payload)).
    + inv_result H. now left.
    + apply result_bind_inr in H as (data & _ & H).
      destruct (dict_mem "key" d).
      * apply result_bind_inr in H as (vault_key & _ & H).
        apply result_bind_inr in H as (present & _ & H).
        destruct (negb present).
        -- inv_result H. now left.
        -- apply result_bind_inr in H as (v & _ & H).
           injection H as <-. right. now exists v.
      * injection H as <-. right. now exists data.
Qed.

Lemma vault_keys_step w cl key value rest acc :
  vault_keys w cl ((key, value) :: rest) acc =
  if tagged "vault" value then
    if negb (HAS_HVAC w) then (emit (Log Error hvac_missing) ;; ret None)
    else
      match value with
      | VDict d => acc' <- vault_entry w cl key d acc ;; vault_keys w cl rest acc'
      | _ => vault_keys w cl rest acc
      end
  else vault_keys w cl rest acc.
Proof.
  destruct value; reflexivity.
Qed.

Lemma wf_vault_keys w cl keys acc m :
  wf_dict acc -> result (vault_keys w cl keys acc) = inr (Some m) -> wf_dict m.
Proof.
  revert acc. induction keys as [|[key value] rest IH]; intros acc Hacc H.
  - injection H as <-. exact Hacc.
  - rewrite vault_keys_step in H.
    destruct (tagged "vault" value); [|now apply (IH acc)].
    destruct (negb (HAS_HVAC w)); [discriminate H|].
    destruct value as [| | | | |d]; try now apply (IH acc).
    apply result_bind_inr in H as (acc' & Hacc' & H).
    apply (IH acc'); [|exact H].
    apply vault_entry_result in Hacc' as [->|[v ->]];
      [exact Hacc|now apply wf_dict_set].
Qed.

(** Every name the vault loader binds is the name of a vault-tagged
    reference. *)
Lemma vault_keys_get w cl keys acc m k x :
  wf_dict keys ->
  result (vault_keys w cl keys acc) = inr (Some m) ->
  dict_get k m = Some x ->
  dict_get k acc = Some x \/
  exists ref, dict_get k keys = Some ref /\ tagged "vault" ref = true.
Proof.
  revert acc. induction keys as [|[key value] rest IH]; intros acc Hk H Hx.
  - injection H as <-. now left.
  - unfold wf_dict in Hk. simpl in Hk. inversion Hk as [|? ? Hnin Hr]; subst.
    apply dict_get_None in Hnin.
    assert (Hrest : forall ref, dict_get k rest = Some ref ->
                                dict_get k ((key, value) :: rest) = Some ref).
    { intros ref Href. simpl. destruct (String.eqb_spec k key) as [->|]; [|exact Href].
      unfold dict in *. congruence. }
    rewrite vault_keys_step in H.
    destruct (tagged "vault" value) eqn:Ht.
    + destruct (negb (HAS_HVAC w)); [discriminate H|].
      destruct value as [| | | | |d]; try discriminate Ht.
      apply result_bind_inr in H as (acc' & Hacc' & H).
      destruct (IH acc' Hr H Hx) as [Hin|[ref [Hin Href]]].
      * destruct (String.eqb_spec k key) as [->|Hne].
        -- right. exists (VDict d). simpl. now rewrite String.eqb_refl.
        -- left. apply vault_entry_result in Hacc' as [->|[v ->]]; [exact Hin|].
           now rewrite dict_get_set_neq in Hin.
      * right. exists ref. split; [now apply Hrest|exact Href].
    + destruct (IH acc Hr H Hx) as [Hin|[ref [Hin Href]]]; [now left|].
      right. exists ref. split; [now apply Hrest|exact Href].
Qed.

Lemma good_vault_targets w cl secrets_info s r :
  good s -> result (vault_targets w cl secrets_info s) = inr r -> good r.
Proof.
  revert s. induction secrets_info as [|[t keys] rest IH]; intros s Hs H.
  - injection H as <-. exact Hs.
  - simpl in H. apply result_bind_inr in H as (o & Ho & H).
    destruct o as [m|]; [|injection H as <-; apply good_nil].
    apply (IH (close_target t m s)); [|exact H].
    apply good_close_target; [exact Hs|].
    apply (wf_vault_keys w cl keys (acc := [])); [constructor|exact Ho].
Qed.

Lemma lookup2_vault_targets w cl secrets_info s r t k x :
  wf_spec secrets_info -> wf_dict s ->
  result (vault_targets w cl secrets_info s) = inr r ->
  lookup2 t k r = Some x ->
  lookup2 t k s = Some x \/
  exists ref, lookup2 t k secrets_info = Some ref /\ tagged "vault" ref = true.
Proof.
  revert s. induction secrets_info as [|[t' keys] rest IH]; intros s Hspec Hs H Hx.
  - injection H as <-. now left.
  - apply wf_spec_cons in Hspec as (Hkeys & Hfresh & Hrest).
    simpl in H. apply result_bind_inr in H as (o & Ho & H).
    destruct o as [m|]; [|injection H as <-; discriminate Hx].
    destruct (IH _ Hrest (wf_close_target t' m Hs) H Hx) as [Hin|[ref [Hin Href]]].
    + rewrite lookup2_close_target in Hin by exact Hs.
      destruct (String.eqb_spec t t') as [->|Hne]; [|now left].
      destruct (@vault_keys_get w cl keys [] m k x Hkeys Ho Hin)
        as [Habs|[ref [Hin' Href]]]; [discriminate Habs|].
      right. exists ref. split; [|exact Href].
      unfold lookup2. simpl. now rewrite String.eqb_refl.
    + right. exists ref. split; [|exact Href].
      unfold lookup2 in *. simpl.
      destruct (String.eqb_spec t t') as [->|Hne]; [|exact Hin].
      unfold secrets, dict in *. rewrite Hfresh in Hin. discriminate Hin.
Qed.

(** *** Without the store library *)

Lemma vault_keys_no_hvac w cl keys acc :
  HAS_HVAC w = false ->
  vault_keys w cl keys acc =
  if has_vault_ref keys
  then ([Log Error hvac_missing], inr None)
  else ([], inr (Some acc)).
Proof.
  intros Hw. induction keys as [|[key value] rest IH]; [reflexivity|].
  rewrite vault_keys_step, Hw. simpl.
  destruct (tagged "vault" value); [reflexivity|exact IH].
Qed.

Lemma vault_targets_no_hvac w cl secrets_info :
  HAS_HVAC w = false ->
  vault_targets w cl secrets_info [] =
  ((if has_vault_entry secrets_info then [Log Error hvac_missing] else []), inr []).
Proof.
  intros Hw. induction secrets_info as [|[t keys] rest IH]; [reflexivity|].
  simpl. rewrite vault_keys_no_hvac by exact Hw.
  destruct (has_vault_ref keys); [reflexivity|].
  simpl.
  assert (Hc : close_target t [] [] = []).
  { rewrite close_target_eq. simpl. now rewrite String.eqb_refl. }
  rewrite Hc, IH. reflexivity.
Qed.

(** ** load_secrets *)

Lemma load_secrets_result w secrets_info cfg :
  result (load_secrets w secrets_info cfg) =
  match result (load_secrets_from_env w secrets_info cfg) with
  | inl e => inl e
  | inr r2 =>
      match result (load_secrets_from_vault w secrets_info cfg) with
      | inl e => inl e
      | inr r3 =>
          inr (merge_into
                 (merge_into (merge_into [] (inline_targets secrets_info [])) r2)
                 r3)
      end
  end.
Proof.
  unfold load_secrets, loaders, run_loaders, load_inline_secrets.
  rewrite !result_bind. simpl. rewrite result_bind.
  destruct (result (load_secrets_from_env w secrets_info cfg)) as [e|r2];
    [reflexivity|].
  rewrite result_bind.
  destruct (result (load_secrets_from_vault w secrets_info cfg)) as [e|r3];
    reflexivity.
Qed.

Lemma good_load_inline_secrets secrets_info : good (inline_targets secrets_info []).
Proof. apply good_inline_targets, good_nil. Qed.

Lemma good_load_secrets_from_env w secrets_info cfg r :
  result (load_secrets_from_env w secrets_info cfg) = inr r -> good r.
Proof. apply good_env_targets, good_nil. Qed.

Lemma good_load_secrets_from_vault w secrets_info cfg r :
  result (load_secrets_from_vault w secrets_info cfg) = inr r -> good r.
Proof.
  unfold load_secrets_from_vault. intros H.
  apply result_bind_inr in H as (cl & _ & H).
  apply (good_vault_targets w cl secrets_info good_nil H).
Qed.

Ltac solve_wf_dict :=
  unfold wf_dict, keys_of; simpl;
  repeat (constructor; [simpl; intuition discriminate|]); constructor.

Ltac solve_wf_spec :=
  split;
  [solve_wf_dict
  |simpl; intros ? ? Hin;
   repeat (destruct Hin as [Hin|Hin]; [injection Hin as <- <-; solve_wf_dict|]);
   destruct Hin].

Lemma wf_example_spec : wf_spec example_spec.
Proof. solve_wf_spec. Qed.

(** * The claims *)

(** C1.  [load_secrets] runs the inline, the environment and the store
    loader in this order and folds their results into one dict with a
    per-target [update]: a call is the sequence written below (a loader
    that raises ends it), and when the loaders return [r1], [r2] and [r3],
    the value bound to (target, key) in the result is the one of [r3] if
    [r3] binds the pair, else the one of [r2] if [r2] binds it, else the
    one of [r1]. *)
Theorem load_secrets_order_and_precedence w secrets_info cfg :
  load_secrets w secrets_info cfg =
    (emit (Log Debug "Loading secrets...") ;;
     r1 <- load_inline_secrets w secrets_info cfg ;;
     r2 <- load_secrets_from_env w secrets_info cfg ;;
     r3 <- load_secrets_from_vault w secrets_info cfg ;;
     emit (Log Debug "Secrets loaded") ;;
     ret (merge_into (merge_into (merge_into [] r1) r2) r3))
  /\
  forall r1 r2 r3,
    result (load_inline_secrets w secrets_info cfg) = inr r1 ->
    result (load_secrets_from_env w secrets_info cfg) = inr r2 ->
    result (load_secrets_from_vault w secrets_info cfg) = inr r3 ->
    exists res,
      result (load_secrets w secrets_info cfg) = inr res /\
      forall t k,
        lookup2 t k res =
        match lookup2 t k r3 with
        | Some x => Some x
        | None =>
            match lookup2 t k r2 with
            | Some x => Some x
            | None => lookup2 t k r1
            end
        end.
Proof.
  split.
  - unfold load_secrets, loaders, run_loaders, load_inline_secrets.
    rewrite !bind_pure.
    destruct (load_secrets_from_env w secrets_info cfg) as [t2 [e|r2]];
      [reflexivity|].
    destruct (load_secrets_from_vault w secrets_info cfg) as [t3 [e|r3]];
      simpl; [reflexivity|].
    now rewrite app_nil_r, <- app_assoc.
  - intros r1 r2 r3 H1 H2 H3. injection H1 as <-.
    rewrite load_secrets_result, H2, H3.
    eexists. split; [reflexivity|]. intros t k.
    rewrite lookup2_merge_into
      by exact (good_load_secrets_from_vault w secrets_info cfg H3).
    rewrite lookup2_merge_into
      by exact (good_load_secrets_from_env w secrets_info cfg H2).
    rewrite lookup2_merge_into by apply good_load_inline_secrets.
    destruct (lookup2 t k r3); [reflexivity|].
    destruct (lookup2 t k r2); [reflexivity|].
    now destruct (lookup2 t k (inline_targets secrets_info [])).
Qed.

Lemma load_secrets_order_and_precedence_witness :
  exists res,
    result (load_secrets example_world example_spec (Some [])) = inr res /\
    lookup2 "t1" "s1" res = Some (VStr "v1") /\
    lookup2 "t2" "s2" res = Some (VStr "hello") /\
    lookup2 "t3" "s3" res = Some (VStr "shhh").
Proof.
  destruct (proj2 (load_secrets_order_and_precedence example_world example_spec (Some []))
              [("t1", [("s1", VStr "v1")])]
              [("t2", [("s2", VStr "hello")])]
              [("t3", [("s3", VStr "shhh")])]
              eq_refl eq_refl eq_refl) as [res [Hres Hlook]].
  exists res. split; [exact Hres|].
  rewrite !Hlook. repeat split; reflexivity.
Defined.

(** C5.  Without the store library the store loader returns the empty
    dict and raises nothing, whatever the specification and the
    configuration are (it logs one error when the specification has a
    vault-tagged entry), and [load_secrets] returns the inline and the
    environment results merged. *)
Theorem missing_library_contributes_nothing w secrets_info cfg :
  HAS_HVAC w = false ->
  load_secrets_from_vault w secrets_info cfg =
    ((if has_vault_entry secrets_info then [Log Error hvac_missing] else []),
     inr [])
  /\
  forall r1 r2,
    result (load_inline_secrets w secrets_info cfg) = inr r1 ->
    result (load_secrets_from_env w secrets_info cfg) = inr r2 ->
    result (load_secrets w secrets_info cfg) =
    inr (merge_into (merge_into [] r1) r2).
Proof.
  intros Hw.
  assert (Hv : load_secrets_from_vault w secrets_info cfg =
               ((if has_vault_entry secrets_info
                 then [Log Error hvac_missing] else []), inr [])).
  { unfold load_secrets_from_vault, create_vault_client. rewrite Hw, bind_pure.
    now apply vault_targets_no_hvac. }
  split; [exact Hv|].
  intros r1 r2 H1 H2. injection H1 as <-.
  now rewrite load_secrets_result, H2, Hv.
Qed.

Lemma missing_library_contributes_nothing_witness :
  load_secrets_from_vault example_world_no_hvac example_spec None =
    ([Log Error hvac_missing], inr []) /\
  result (load_secrets example_world_no_hvac example_spec None) =
    inr [("t1", [("s1", VStr "v1")]); ("t2", [("s2", VStr "hello")])].
Proof.
  destruct (missing_library_contributes_nothing
              example_world_no_hvac example_spec None eq_refl) as [Hv Hl].
  split; [exact Hv|].
  exact (Hl [("t1", [("s1", VStr "v1")])] [("t2", [("s2", VStr "hello")])]
            eq_refl eq_refl).
Defined.

(** C9.  With a static token in the configuration, role credentials are
    not used: no call of the role-based authentication appears in the
    trace of [create_vault_client], and with the store library present
    the client it returns carries the configured token. *)
Theorem static_token_takes_precedence w cfg :
  dict_mem "vault_token" cfg = true ->
  dict_mem "vault_role_id" cfg = true ->
  dict_mem "vault_role_secret" cfg = true ->
  (forall role_id role_secret,
      ~ In (AuthApprole role_id role_secret)
           (trace (create_vault_client w (Some cfg)))) /\
  (HAS_HVAC w = true ->
   result (create_vault_client w (Some cfg)) =
   inr (Some {| url := py_get cfg "vault_addr";
                default_kv_version :=
                  py_str (py_get_default cfg "vault_kv_version" (VStr "2"));
                token := Some (py_get cfg "vault_token") |})).
Proof.
  intros Htok _ _. unfold create_vault_client.
  destruct (HAS_HVAC w); simpl; rewrite ?Htok; simpl.
  - split; [|reflexivity].
    intros role_id role_secret [H|[H|[]]]; discriminate H.
  - split; [intros ? ? []|discriminate].
Qed.

Lemma static_token_takes_precedence_witness :
  result (create_vault_client example_world (Some token_and_role_config)) =
  inr (Some {| url := VStr "http://127.0.0.1:8200";
               default_kv_version := "2";
               token := Some (VStr "s.token") |}).
Proof.
  exact (proj2 (static_token_takes_precedence example_world token_and_role_config
                  eq_refl eq_refl eq_refl) eq_refl).
Defined.

(** C8.  [create_vault_client] returns no client when the store library
    is missing.  Otherwise the client is bound to [vault_addr] and to the
    KV version of the configuration (["2"] when the configuration has
    none); a [vault_token] is assigned to it; failing that, a role
    identifier and secret are exchanged, an exception of the exchange
    being raised again as [InvalidExperiment] with its text, and the
    token of the answer being assigned; with neither, the client is
    returned without a token and nothing is raised. *)
Theorem create_vault_client_spec w cfg :
  (HAS_HVAC w = false -> forall c, create_vault_client w c = ([], inr None)) /\
  (HAS_HVAC w = true ->
   let addr := py_get cfg "vault_addr" in
   let ver := py_str (py_get_default cfg "vault_kv_version" (VStr "2")) in
   let fresh := {| url := addr; default_kv_version := ver; token := None |} in
   let role_id := py_get cfg "vault_role_id" in
   let role_secret := py_get cfg "vault_role_secret" in
   (forall r, result (create_vault_client w (Some cfg)) = inr r ->
              exists cl, r = Some cl /\ url cl = addr /\ default_kv_version cl = ver) /\
   (dict_get "vault_kv_version" cfg = None -> ver = "2") /\
   (dict_mem "vault_token" cfg = true ->
    result (create_vault_client w (Some cfg)) =
    inr (Some {| url := addr; default_kv_version := ver;
                 token := Some (py_get cfg "vault_token") |})) /\
   (dict_mem "vault_token" cfg = false ->
    dict_mem "vault_role_id" cfg = true ->
    dict_mem "vault_role_secret" cfg = true ->
    In (AuthApprole role_id role_secret) (trace (create_vault_client w (Some cfg))) /\
    (forall ve,
        auth_approle w fresh role_id role_secret = inl ve ->
        result (create_vault_client w (Some cfg)) =
        inl (InvalidExperiment
               ("Failed to connect to Vault with the AppRole: " ++ ve))) /\
    (forall answer auth tok,
        auth_approle w fresh role_id role_secret = inr (VDict answer) ->
        dict_get "auth" answer = Some (VDict auth) ->
        dict_get "client_token" auth = Some tok ->
        result (create_vault_client w (Some cfg)) =
        inr (Some {| url := addr; default_kv_version := ver;
                     token := Some tok |}))) /\
   (dict_mem "vault_token" cfg = false ->
    dict_mem "vault_role_id" cfg && dict_mem "vault_role_secret" cfg = false ->
    create_vault_client w (Some cfg) =
    ([HvacClient addr; Log Debug ("Using Vault secrets KV version " ++ ver)],
     inr (Some fresh)))).
Proof.
  split.
  - intros Hw c. unfold create_vault_client. now rewrite Hw.
  - intros Hw addr ver fresh role_id role_secret.
    unfold create_vault_client. rewrite Hw.
    fold addr ver fresh role_id role_secret.
    repeat split.
    + intros r H. inv_result H; subst r; eexists; repeat split.
    + intros Hv. unfold ver, py_get_default. now rewrite Hv.
    + intros Htok. simpl. now rewrite Htok.
    + simpl. rewrite H, H0, H1. simpl.
      destruct (auth_approle w fresh role_id role_secret); simpl; [auto|].
      destruct (py_index v "auth") as [ta [e|a]]; simpl; [auto|].
      destruct (py_index a "client_token") as [tb [e|b]]; simpl; auto.
    + intros ve Hve. simpl. rewrite H, H0, H1. simpl. now rewrite Hve.
    + intros answer auth tok Ha Hauth Htok. simpl. rewrite H, H0, H1. simpl.
      rewrite Ha. simpl. rewrite Hauth. simpl. now rewrite Htok.
    + intros H H0. simpl. now rewrite H, H0.
Qed.

Lemma create_vault_client_spec_witness :
  create_vault_client example_world_no_hvac None = ([], inr None) /\
  result (create_vault_client example_world (Some token_and_role_config)) =
    inr (Some {| url := VStr "http://127.0.0.1:8200";
                 default_kv_version := "2";
                 token := Some (VStr "s.token") |}) /\
  result (create_vault_client example_world (Some role_config)) =
    inl (InvalidExperiment
           "Failed to connect to Vault with the AppRole: connection refused") /\
  create_vault_client example_world (Some address_only_config) =
    ([HvacClient (VStr "http://127.0.0.1:8200");
      Log Debug "Using Vault secrets KV version 2"],
     inr (Some {| url := VStr "http://127.0.0.1:8200";
                  default_kv_version := "2";
                  token := None |})).
Proof.
  split; [|split; [|split]].
  - exact (proj1 (create_vault_client_spec example_world_no_hvac []) eq_refl None).
  - destruct (proj2 (create_vault_client_spec example_world token_and_role_config)
                eq_refl) as (_ & _ & Htok & _).
    exact (Htok eq_refl).
  - destruct (proj2 (create_vault_client_spec example_world role_config)
                eq_refl) as (_ & _ & _ & Hrole & _).
    destruct (Hrole eq_refl eq_refl eq_refl) as (_ & Hfail & _).
    exact (Hfail "connection refused" eq_refl).
  - destruct (proj2 (create_vault_client_spec example_world address_only_config)
                eq_refl) as (_ & _ & _ & _ & Hnone).
    exact (Hnone eq_refl eq_refl).
Defined.

(** *** Running one entry of the store loader *)

Lemma bind_emit_ret {A B} (e : event) (a : A) (f : A -> M B) :
  bind (bind (emit e) (fun _ => ret a)) f = (e :: trace (f a), result (f a)).
Proof. unfold bind, emit, ret. simpl. now destruct (f a). Qed.

Ltac run_entry :=
  repeat first
    [ rewrite bind_pure
    | progress cbn [py_get_attr py_index py_contains py_get_value negb]
    | progress cbv beta iota
    | progress unfold py_get_default, py_get, dict_mem
    | match goal with H : dict_get _ _ = _ |- _ => rewrite H end ].

(** One entry with a path, by KV version. *)
Lemma vault_entry_by_version :
  forall w c key d path acc,
      dict_get "path" d = Some path -> path <> VNone ->
      (default_kv_version c = "1" ->
       forall payload,
         read_secret w c path = inr (VDict payload) -> payload <> [] ->
         (dict_get "key" d = None ->
          vault_entry w (Some c) key d acc =
          ([ReadSecret path], inr (dict_set key (py_get payload "data") acc))) /\
         (forall name data v,
             dict_get "key" d = Some (VStr name) ->
             dict_get "data" payload = Some (VDict data) ->
             dict_get name data = Some v ->
             vault_entry w (Some c) key d acc =
             ([ReadSecret path], inr (dict_set key v acc)))) /\
      (default_kv_version c <> "1" ->
       forall payload inner,
         read_secret_version w c path = inr (VDict payload) ->
         dict_get "data" payload = Some (VDict inner) ->
         (dict_get "key" d = None ->
          vault_entry w (Some c) key d acc =
          ([ReadSecretVersion path],
           inr (dict_set key (py_get inner "data") acc))) /\
         (forall name data v,
             dict_get "key" d = Some (VStr name) ->
             dict_get "data" inner = Some (VDict data) ->
             dict_get name data = Some v ->
             vault_entry w (Some c) key d acc =
             ([ReadSecretVersion path], inr (dict_set key v acc)))).
Proof.
  intros w c key d path acc Hpath Hnone.
  assert (Hp : py_get d "path" = path) by (unfold py_get; now rewrite Hpath).
  assert (Hn : is_none path = false) by (now destruct path).
  split.
  + intros Hv payload Hread Hne.
    assert (Ht : truthy (VDict payload) = true) by (now destruct payload).
    split.
    * intros Hk. unfold vault_entry.
      rewrite Hp, Hn, Hv, String.eqb_refl, Hread. unfold call_store.
      rewrite bind_emit_ret, Ht. run_entry.
      destruct (dict_get "data" payload); reflexivity.
    * intros name data v Hk Hdata Hv'. unfold vault_entry.
      rewrite Hp, Hn, Hv, String.eqb_refl, Hread. unfold call_store.
      rewrite bind_emit_ret, Ht. run_entry. reflexivity.
  + intros Hv payload inner Hread Hinner.
    apply String.eqb_neq in Hv.
    assert (Ht : truthy (VDict payload) = true).
    { destruct payload; [discriminate Hinner|reflexivity]. }
    split.
    * intros Hk. unfold vault_entry.
      rewrite Hp, Hn, Hv, Hread. unfold call_store.
      rewrite bind_emit_ret, Ht. run_entry.
      destruct (dict_get "data" inner); reflexivity.
    * intros name data v Hk Hdata Hv'. unfold vault_entry.
      rewrite Hp, Hn, Hv, Hread. unfold call_store.
      rewrite bind_emit_ret, Ht. run_entry. reflexivity.
Qed.

Lemma default_kv_version_of_configuration :
  forall w cfg cl,
    result (create_vault_client w (Some cfg)) = inr (Some cl) ->
    dict_get "vault_kv_version" cfg = None ->
    default_kv_version cl = "2".
Proof.
  intros w cfg cl H Hv. unfold create_vault_client in H.
  destruct (HAS_HVAC w); [|discriminate H].
  unfold py_get_default in H. rewrite Hv in H.
  inv_result H; injection H as ->; reflexivity.
Qed.

(** ** Entries the store loader skips *)

Lemma vault_entry_skips_missing_path w cl key d acc :
  py_get d "path" = VNone ->
  vault_entry w cl key d acc =
  ([Log Warning ("Missing Vault secret path for '" ++ key ++ "'")], inr acc).
Proof. intros Hp. unfold vault_entry. now rewrite Hp. Qed.

Lemma vault_entry_skips_empty_payload w c key d acc path payload :
  py_get d "path" = path -> path <> VNone ->
  (if String.eqb (default_kv_version c) "1"
   then read_secret w c path else read_secret_version w c path) = inr payload ->
  truthy payload = false ->
  vault_entry w (Some c) key d acc =
  ([if String.eqb (default_kv_version c) "1"
    then ReadSecret path else ReadSecretVersion path;
    Log Warning ("No Vault secret found at path: " ++ py_str path)],
   inr acc).
Proof.
  intros Hp Hnone Hread Ht.
  assert (Hn : is_none path = false) by (now destruct path).
  unfold vault_entry. rewrite Hp, Hn.
  destruct (String.eqb (default_kv_version c) "1");
    rewrite Hread; unfold call_store; rewrite bind_emit_ret, Ht; reflexivity.
Qed.

Lemma vault_entry_skips_missing_key w c key d acc path payload data name :
  py_get d "path" = path -> path <> VNone ->
  (if String.eqb (default_kv_version c) "1"
   then read_secret w c path else read_secret_version w c path) = inr payload ->
  payload_data (String.eqb (default_kv_version c) "1") payload = Some data ->
  dict_get "key" d = Some (VStr name) ->
  dict_get name data = None ->
  result (vault_entry w (Some c) key d acc) = inr acc.
Proof.
  intros Hp Hnone Hread Hdata Hk Hname.
  assert (Hn : is_none path = false) by (now destruct path).
  unfold vault_entry. rewrite Hp, Hn.
  destruct (String.eqb (default_kv_version c) "1");
    rewrite Hread; unfold call_store; rewrite bind_emit_ret;
    destruct payload as [| | | | |p]; try discriminate Hdata; simpl in Hdata.
  - destruct (dict_get "data" p) as [[| | | | |dd]|] eqn:E; try discriminate Hdata.
    injection Hdata as ->.
    assert (Ht : truthy (VDict p) = true) by (destruct p; [discriminate E|reflexivity]).
    rewrite Ht. run_entry. reflexivity.
  - destruct (dict_get "data" p) as [[| | | | |inner]|] eqn:E; try discriminate Hdata.
    destruct (dict_get "data" inner) as [[| | | | |dd]|] eqn:E'; try discriminate Hdata.
    injection Hdata as ->.
    assert (Ht : truthy (VDict p) = true) by (destruct p; [discriminate E|reflexivity]).
    rewrite Ht. run_entry. reflexivity.
Qed.

(** C6.  A named key is looked up in the data of the payload with [in];
    a payload that is not empty but whose data is [None] makes this test
    raise [TypeError], and the whole call of [load_secrets] raises with
    it: the entry is not skipped, and the inline secret of the other
    target is lost too. *)
Theorem missing_key_in_null_data_raises :
  vault_entry deleted_version_world (Some (client_of_version "2")) "s3"
    [("type", VStr "vault"); ("path", VStr "foo/bar"); ("key", VStr "pw")] []
  = ([ReadSecretVersion (VStr "foo/bar")], inl TypeError) /\
  result (load_secrets deleted_version_world
            [("t1", [("s1", VStr "v1")]);
             ("t3", [("s3", vault_ref "foo/bar" "pw")])]
            (Some []))
  = inl TypeError.
Proof. split; reflexivity. Qed.

(** ** Specifications of literals *)

Lemma is_inline_tags ref :
  is_inline ref = true -> tagged "env" ref = false /\ tagged "vault" ref = false.
Proof.
  unfold is_inline. intros H. apply negb_true_iff in H.
  now apply orb_false_iff in H.
Qed.

Lemma inline_keys_literals keys acc :
  forallb (fun kv => is_inline (snd kv)) keys = true ->
  NoDup (keys_of acc ++ keys_of keys) ->
  inline_keys keys acc = (acc ++ keys)%list.
Proof.
  revert acc. induction keys as [|[key value] rest IH]; intros acc Hall Hnd.
  - now rewrite app_nil_r.
  - simpl in Hall. apply andb_true_iff in Hall as [Hv Hrest].
    rewrite inline_keys_step, Hv.
    assert (Hk : ~ In key (keys_of acc)).
    { intros Hin. apply NoDup_remove_2 in Hnd. apply Hnd.
      apply in_or_app. now left. }
    rewrite dict_set_fresh by exact Hk. rewrite IH.
    + now rewrite <- app_assoc.
    + exact Hrest.
    + unfold keys_of in *. rewrite map_app, <- app_assoc. exact Hnd.
Qed.

Lemma close_target_fresh t m s :
  m <> [] -> ~ In t (keys_of s) -> close_target t m s = (s ++ [(t, m)])%list.
Proof.
  intros Hm Ht. rewrite close_target_eq. destruct m; [contradiction|].
  now apply dict_set_fresh.
Qed.

Lemma close_target_empty t : close_target t [] [] = [].
Proof. rewrite close_target_eq. simpl. now rewrite String.eqb_refl. Qed.

Lemma inline_targets_literals secrets_info s :
  only_literals secrets_info = true ->
  (forall t keys, In (t, keys) secrets_info -> wf_dict keys /\ keys <> []) ->
  NoDup (keys_of s ++ keys_of secrets_info) ->
  inline_targets secrets_info s = (s ++ secrets_info)%list.
Proof.
  revert s. induction secrets_info as [|[t keys] rest IH]; intros s Hall Hkeys Hnd.
  - now rewrite app_nil_r.
  - simpl in Hall. apply andb_true_iff in Hall as [Hk Hrest].
    destruct (Hkeys t keys) as [Hwf Hne]; [now left|].
    simpl. rewrite (inline_keys_literals keys [] Hk) by exact Hwf. simpl.
    rewrite close_target_fresh.
    + rewrite IH.
      * now rewrite <- app_assoc.
      * exact Hrest.
      * intros t0 k0 H0. apply (Hkeys t0 k0). now right.
      * unfold keys_of in *. rewrite map_app, <- app_assoc. exact Hnd.
    + exact Hne.
    + intros Hin. apply NoDup_remove_2 in Hnd. apply Hnd.
      apply in_or_app. now left.
Qed.

Lemma env_keys_literals w keys acc :
  forallb (fun kv => is_inline (snd kv)) keys = true ->
  env_keys w keys acc = ret acc.
Proof.
  revert acc. induction keys as [|[key value] rest IH]; intros acc Hall; [reflexivity|].
  simpl in Hall. apply andb_true_iff in Hall as [Hv Hrest].
  apply is_inline_tags in Hv as [He _].
  rewrite env_keys_step, He. now apply IH.
Qed.

Lemma env_targets_literals w secrets_info :
  only_literals secrets_info = true ->
  env_targets w secrets_info [] = ret [].
Proof.
  induction secrets_info as [|[t keys] rest IH]; intros Hall; [reflexivity|].
  simpl in Hall. apply andb_true_iff in Hall as [Hk Hrest].
  simpl. rewrite (env_keys_literals w keys [] Hk), bind_pure, close_target_empty.
  now apply IH.
Qed.

Lemma vault_keys_literals w cl keys acc :
  forallb (fun kv => is_inline (snd kv)) keys = true ->
  vault_keys w cl keys acc = ret (Some acc).
Proof.
  revert acc. induction keys as [|[key value] rest IH]; intros acc Hall; [reflexivity|].
  simpl in Hall. apply andb_true_iff in Hall as [Hv Hrest].
  apply is_inline_tags in Hv as [_ Hv].
  rewrite vault_keys_step, Hv. now apply IH.
Qed.

Lemma vault_targets_literals w cl secrets_info :
  only_literals secrets_info = true ->
  vault_targets w cl secrets_info [] = ret [].
Proof.
  induction secrets_info as [|[t keys] rest IH]; intros Hall; [reflexivity|].
  simpl in Hall. apply andb_true_iff in Hall as [Hk Hrest].
  simpl. rewrite (vault_keys_literals w cl keys [] Hk), bind_pure, close_target_empty.
  now apply IH.
Qed.

Lemma merge_into_fresh s p :
  (forall t m, In (t, m) p -> wf_dict m) ->
  NoDup (keys_of s ++ keys_of p) ->
  merge_into s p = (s ++ p)%list.
Proof.
  revert s. induction p as [|[t m] r IH]; intros s Hall Hnd.
  - now rewrite app_nil_r.
  - rewrite merge_into_cons, merge_target_eq.
    assert (Ht : ~ In t (keys_of s)).
    { intros Hin. apply NoDup_remove_2 in Hnd. apply Hnd.
      apply in_or_app. now left. }
    assert (Hg : dict_get t s = None) by now apply dict_get_None.
    unfold secrets, dict in *. rewrite Hg.
    rewrite dict_update_nil by (apply (Hall t m); now left).
    rewrite dict_set_fresh by exact Ht. rewrite IH.
    + now rewrite <- app_assoc.
    + intros t0 m0 H0. apply (Hall t0 m0). now right.
    + unfold keys_of in *. rewrite map_app, <- app_assoc. exact Hnd.
Qed.

Lemma eq_str_true v s : eq_str v s = true <-> v = VStr s.
Proof.
  destruct v as [| | |s'| |]; simpl; try (split; discriminate).
  rewrite String.eqb_eq. split; [now intros ->|now intros [= ->]].
Qed.

Lemma eq_str_false v s : eq_str v s = false <-> v <> VStr s.
Proof.
  rewrite <- eq_str_true. destruct (eq_str v s); split; congruence.
Qed.

(** C7, as amended.  The inline loader keeps an entry exactly when its
    value is not a dict, or is a dict whose [type] is neither ["env"] nor
    ["vault"], and keeps it as it is.  For a specification of such values
    only in which every target has at least one secret, [load_secrets]
    returns the specification itself whenever the store client can be
    created. *)
Theorem inline_entries_and_literal_specs :
  (forall ref,
      is_inline ref = true <->
      match ref with
      | VDict d => py_get d "type" <> VStr "env" /\ py_get d "type" <> VStr "vault"
      | _ => True
      end) /\
  (forall w secrets_info cfg r t k,
      wf_spec secrets_info ->
      result (load_inline_secrets w secrets_info cfg) = inr r ->
      lookup2 t k r =
      match lookup2 t k secrets_info with
      | Some ref => if is_inline ref then Some ref else None
      | None => None
      end) /\
  (forall w secrets_info cfg cl,
      wf_spec secrets_info ->
      only_literals secrets_info = true ->
      (forall t keys, In (t, keys) secrets_info -> keys <> []) ->
      result (create_vault_client w cfg) = inr cl ->
      result (load_secrets w secrets_info cfg) = inr secrets_info).
Proof.
  split; [|split].
  - intros ref. unfold is_inline. destruct ref as [| | | | |d]; simpl; try tauto.
    rewrite negb_true_iff, orb_false_iff, !eq_str_false. tauto.
  - intros w secrets_info cfg r t k Hwf H. injection H as <-.
    rewrite (@lookup2_inline_targets secrets_info [] t k Hwf) by constructor.
    unfold lookup2. now destruct (dict_get t secrets_info).
  - intros w secrets_info cfg cl [Hwf Hkeys] Hlit Hne Hcl.
    rewrite load_secrets_result.
    unfold load_secrets_from_env, load_secrets_from_vault.
    rewrite env_targets_literals by exact Hlit.
    rewrite result_bind, Hcl, vault_targets_literals by exact Hlit.
    simpl. f_equal.
    rewrite inline_targets_literals; simpl.
    + apply (merge_into_fresh []); [|exact Hwf].
      intros t m Hin. now apply (Hkeys t m).
    + exact Hlit.
    + intros t keys Hin. split; [now apply (Hkeys t keys)|now apply (Hne t keys)].
    + exact Hwf.
Qed.

Lemma inline_entries_and_literal_specs_witness :
  lookup2 "t2" "s2" (inline_targets example_spec []) = None /\
  result (load_secrets example_world literal_spec (Some [])) = inr literal_spec.
Proof.
  destruct inline_entries_and_literal_specs as (_ & Hinline & Hlit).
  split.
  - exact (Hinline example_world example_spec None _ "t2" "s2"
             wf_example_spec eq_refl).
  - apply (Hlit example_world literal_spec (Some [])
             (Some (client_of_version "2"))).
    + solve_wf_spec.
    + reflexivity.
    + simpl. intros t keys Hin.
      repeat (destruct Hin as [Hin|Hin]; [injection Hin as <- <-; discriminate|]).
      destruct Hin.
    + reflexivity.
Defined.

(** C7, the claim as stated, fails: a target without secrets is dropped
    from the result, and a role exchange that fails makes the call raise
    although the specification has no vault entry. *)
Lemma literal_spec_not_returned_counterexample :
  only_literals [("t1", [])] = true /\
  result (load_secrets example_world [("t1", [])] (Some [])) = inr [] /\
  only_literals [("t1", [("s1", VStr "v1")])] = true /\
  result (load_secrets example_world [("t1", [("s1", VStr "v1")])]
            (Some role_config))
  = inl (InvalidExperiment
           "Failed to connect to Vault with the AppRole: connection refused").
Proof. repeat split. Qed.

(** ** When the environment loader raises *)

Lemma env_targets_trace w secrets_info s : trace (env_targets w secrets_info s) = [].
Proof.
  revert s. induction secrets_info as [|[t keys] rest IH]; intros s; [reflexivity|].
  simpl. rewrite trace_bind, env_keys_trace.
  destruct (result (env_keys w keys [])); [reflexivity|apply IH].
Qed.

Lemma load_secrets_env_raises w secrets_info cfg e :
  result (load_secrets_from_env w secrets_info cfg) = inl e ->
  load_secrets w secrets_info cfg = ([Log Debug "Loading secrets..."], inl e).
Proof.
  intros He.
  assert (Henv : load_secrets_from_env w secrets_info cfg = ([], inl e)).
  { rewrite (M_eta (load_secrets_from_env w secrets_info cfg)), He.
    unfold load_secrets_from_env. now rewrite env_targets_trace. }
  unfold load_secrets, loaders, run_loaders, load_inline_secrets.
  rewrite bind_pure, Henv. reflexivity.
Qed.

Lemma load_secrets_first_env_failure w cfg pre t kpre key ref kpost post :
  all_targets_resolvable w pre = true ->
  all_resolvable w kpre = true ->
  tagged "env" ref = true -> env_value w ref = None ->
  load_secrets w (pre ++ (t, (kpre ++ (key, ref) :: kpost)%list) :: post)%list cfg
  = ([Log Debug "Loading secrets..."], inl (env_error w ref)).
Proof.
  intros Hpre Hkpre Ht Hv. apply load_secrets_env_raises.
  unfold load_secrets_from_env. now apply env_targets_raises.
Qed.

(** C2, as amended.  Whenever [load_secrets] returns, an env-tagged
    entry whose key names a variable of the environment is bound to the
    value of that variable, and [load_secrets] returns when no env-tagged
    entry fails and the store loader returns.  When an env-tagged entry
    names a variable the environment does not have, and no env-tagged
    entry iterated before it fails, [load_secrets] raises
    [InvalidExperiment] with a message that ends in the name of the
    variable; nothing is returned and the store is not contacted. *)
Theorem env_reference_resolution w cfg :
  (forall secrets_info t k d name s res,
      wf_spec secrets_info ->
      lookup2 t k secrets_info = Some (VDict d) ->
      py_get d "type" = VStr "env" ->
      dict_get "key" d = Some (VStr name) ->
      environ w name = Some s ->
      result (load_secrets w secrets_info cfg) = inr res ->
      lookup2 t k res = Some (VStr s)) /\
  (forall secrets_info r3,
      all_targets_resolvable w secrets_info = true ->
      result (load_secrets_from_vault w secrets_info cfg) = inr r3 ->
      exists res, result (load_secrets w secrets_info cfg) = inr res) /\
  (forall pre t kpre k d name kpost post,
      all_targets_resolvable w pre = true ->
      all_resolvable w kpre = true ->
      py_get d "type" = VStr "env" ->
      dict_get "key" d = Some (VStr name) ->
      environ w name = None ->
      load_secrets w
        (pre ++ (t, (kpre ++ (k, VDict d) :: kpost)%list) :: post)%list cfg
      = ([Log Debug "Loading secrets..."],
         inl (InvalidExperiment (env_missing ++ name)))).
Proof.
  split; [|split].
  - intros secrets_info t k d name s res Hwf Hlook Hty Hkey Henv H.
    rewrite load_secrets_result in H.
    destruct (result (load_secrets_from_env w secrets_info cfg)) as [e|r2] eqn:H2;
      [discriminate H|].
    destruct (result (load_secrets_from_vault w secrets_info cfg)) as [e|r3] eqn:H3;
      [discriminate H|].
    injection H as <-.
    assert (Hval : env_value w (VDict d) = Some (VStr s)).
    { simpl. rewrite Hty. simpl. now rewrite Hkey, Henv. }
    assert (Htag : tagged "env" (VDict d) = true) by (simpl; now rewrite Hty).
    rewrite lookup2_merge_into by exact (good_load_secrets_from_vault _ _ _ H3).
    rewrite lookup2_merge_into by exact (good_load_secrets_from_env _ _ _ H2).
    assert (Hr2 : lookup2 t k r2 = Some (VStr s)).
    { unfold load_secrets_from_env in H2.
      rewrite (@lookup2_env_targets w secrets_info [] r2 t k Hwf) by
        (try constructor; exact H2).
      unfold lookup2 in Hlook.
      destruct (dict_get t secrets_info) as [keys|]; [|discriminate Hlook].
      now rewrite Hlook. }
    rewrite Hr2.
    destruct (lookup2 t k r3) as [x|] eqn:Hr3; [|reflexivity].
    exfalso. unfold load_secrets_from_vault in H3.
    apply result_bind_inr in H3 as (cl & _ & H3).
    destruct (@lookup2_vault_targets w cl secrets_info [] r3 t k x Hwf)
      as [Habs|[ref [Href Hvault]]]; try assumption.
    + constructor.
    + discriminate Habs.
    + rewrite Hlook in Href. injection Href as <-.
      apply tagged_exclusive in Htag. congruence.
  - intros secrets_info r3 Hall H3.
    rewrite load_secrets_result, H3.
    destruct (env_targets_returns w secrets_info [] Hall) as [r2 H2].
    unfold load_secrets_from_env. rewrite H2. eexists. reflexivity.
  - intros pre t kpre k d name kpost post Hpre Hkpre Hty Hkey Henv.
    rewrite load_secrets_first_env_failure; try assumption.
    + simpl. now rewrite Hkey.
    + simpl. now rewrite Hty.
    + simpl. rewrite Hty. simpl. now rewrite Hkey, Henv.
Qed.

Lemma env_reference_resolution_witness :
  (exists res,
      result (load_secrets example_world example_spec (Some [])) = inr res /\
      lookup2 "t2" "s2" res = Some (VStr "hello")) /\
  load_secrets example_world missing_variable_spec (Some [])
  = ([Log Debug "Loading secrets..."],
     inl (InvalidExperiment (env_missing ++ "MISSING"))).
Proof.
  destruct (env_reference_resolution example_world (Some []))
    as (Hvalue & Hreturns & Hraises).
  split.
  - destruct (Hreturns example_spec [("t3", [("s3", VStr "shhh")])]
                eq_refl eq_refl) as [res Hres].
    exists res. split; [exact Hres|].
    exact (Hvalue example_spec "t2" "s2"
             [("type", VStr "env"); ("key", VStr "MYVAR")] "MYVAR" "hello" res
             wf_example_spec eq_refl eq_refl eq_refl eq_refl Hres).
  - exact (Hraises [("t1", [("s1", VStr "v1")])] "t2"
             [("s2", env_ref "MYVAR")] "s4"
             [("type", VStr "env"); ("key", VStr "MISSING")] "MISSING" [] []
             eq_refl eq_refl eq_refl eq_refl eq_refl).
Defined.

(** C2, the claim as stated, fails: the entry of a variable that is set
    is not resolved when the store loader raises afterwards, and the entry
    of a variable that is not set does not decide the exception when an
    env-tagged entry before it has no [key]. *)
Lemma env_reference_resolution_counterexample :
  environ refusing_world "MYVAR" = Some "hello" /\
  result (load_secrets refusing_world
            [("t2", [("s2", env_ref "MYVAR")]);
             ("t3", [("s3", vault_ref "foo/bar" "pw")])]
            (Some []))
  = inl (HvacError "permission denied") /\
  environ example_world "MISSING" = None /\
  result (load_secrets example_world
            [("t2", [("s1", VDict [("type", VStr "env")]);
                     ("s2", env_ref "MISSING")])]
            (Some []))
  = inl (KeyError "key").
Proof. repeat split. Qed.

(** C10, as amended.  An env-tagged entry without [key] makes
    [load_secrets] raise [KeyError] when no env-tagged entry iterated
    before it fails: each of those has a [key] that names a variable of
    the environment.  The store is not contacted. *)
Theorem env_reference_without_key w cfg pre t kpre k d kpost post :
  all_targets_resolvable w pre = true ->
  all_resolvable w kpre = true ->
  py_get d "type" = VStr "env" ->
  dict_get "key" d = None ->
  load_secrets w
    (pre ++ (t, (kpre ++ (k, VDict d) :: kpost)%list) :: post)%list cfg
  = ([Log Debug "Loading secrets..."], inl (KeyError "key")).
Proof.
  intros Hpre Hkpre Hty Hkey.
  rewrite load_secrets_first_env_failure; try assumption.
  - simpl. now rewrite Hkey.
  - simpl. now rewrite Hty.
  - simpl. rewrite Hty. simpl. now rewrite Hkey.
Qed.

Lemma env_reference_without_key_witness :
  load_secrets example_world
    [("t1", [("s1", VStr "v1")]);
     ("t2", [("s2", env_ref "MYVAR"); ("s4", VDict [("type", VStr "env")]);
             ("s5", env_ref "MISSING")])]
    (Some [])
  = ([Log Debug "Loading secrets..."], inl (KeyError "key")).
Proof.
  exact (env_reference_without_key example_world (Some [])
           [("t1", [("s1", VStr "v1")])] "t2" [("s2", env_ref "MYVAR")] "s4"
           [("type", VStr "env")] [("s5", env_ref "MISSING")] []
           eq_refl eq_refl eq_refl eq_refl).
Defined.

(** C10, the claim as stated, fails: an env-tagged entry before the one
    without [key] names a variable that is not set, and the call raises
    [InvalidExperiment]. *)
Lemma env_reference_without_key_counterexample :
  result (load_secrets example_world
            [("t2", [("s2", env_ref "MISSING");
                     ("s4", VDict [("type", VStr "env")])])]
            (Some []))
  = inl (InvalidExperiment (env_missing ++ "MISSING")).
Proof. reflexivity. Qed.

(** X12.  Whenever [load_secrets] returns, no target of the result is
    bound to an empty dict: each has a name bound to some value, [None]
    not excluded, and that name is the name of a secret of the target in
    the specification; a target for which no loader bound a name is not
    in the result. *)
Theorem returned_targets_are_resolved w secrets_info cfg res :
  wf_spec secrets_info ->
  result (load_secrets w secrets_info cfg) = inr res ->
  (forall t m, In (t, m) res -> m <> []) /\
  (forall t m,
      dict_get t res = Some m ->
      exists k v ref,
        dict_get k m = Some v /\ lookup2 t k secrets_info = Some ref) /\
  (forall r1 r2 r3,
      result (load_inline_secrets w secrets_info cfg) = inr r1 ->
      result (load_secrets_from_env w secrets_info cfg) = inr r2 ->
      result (load_secrets_from_vault w secrets_info cfg) = inr r3 ->
      forall t,
        (forall k, lookup2 t k r1 = None /\ lookup2 t k r2 = None /\
                   lookup2 t k r3 = None) ->
        dict_get t res = None).
Proof.
  intros Hwf H. rewrite load_secrets_result in H.
  destruct (result (load_secrets_from_env w secrets_info cfg)) as [e|r2] eqn:H2;
    [discriminate H|].
  destruct (result (load_secrets_from_vault w secrets_info cfg)) as [e|r3] eqn:H3;
    [discriminate H|].
  injection H as <-.
  pose proof (good_load_secrets_from_env _ _ _ H2) as G2.
  pose proof (good_load_secrets_from_vault _ _ _ H3) as G3.
  pose proof (good_load_inline_secrets secrets_info) as G1.
  set (r1 := inline_targets secrets_info []) in *.
  assert (G : good (merge_into (merge_into (merge_into [] r1) r2) r3)).
  { repeat apply good_merge_into; try assumption. apply good_nil. }
  assert (Hlook : forall t k,
             lookup2 t k (merge_into (merge_into (merge_into [] r1) r2) r3) =
             match lookup2 t k r3 with
             | Some x => Some x
             | None => match lookup2 t k r2 with
                       | Some x => Some x
                       | None => lookup2 t k r1
                       end
             end).
  { intros t k. rewrite !lookup2_merge_into by assumption.
    destruct (lookup2 t k r3); [reflexivity|].
    destruct (lookup2 t k r2); [reflexivity|].
    now destruct (lookup2 t k r1). }
  assert (Hne : forall t m,
             dict_get t (merge_into (merge_into (merge_into [] r1) r2) r3) = Some m ->
             exists k v, dict_get k m = Some v).
  { intros t m Hm. apply dict_get_In in Hm. apply G in Hm as [_ Hm].
    destruct m as [|[k v] m']; [contradiction|].
    exists k, v. simpl. now rewrite String.eqb_refl. }
  split; [|split].
  - intros t m Hin. now apply (proj2 G t m).
  - intros t m Hm. destruct (Hne t m Hm) as (k & v & Hk).
    exists k, v.
    assert (Hres : lookup2 t k (merge_into (merge_into (merge_into [] r1) r2) r3)
                   = Some v) by (unfold lookup2; now rewrite Hm).
    rewrite Hlook in Hres.
    destruct (lookup2 t k r3) as [x3|] eqn:E3.
    { unfold load_secrets_from_vault in H3.
      apply result_bind_inr in H3 as (cl & _ & H3).
      destruct (@lookup2_vault_targets w cl secrets_info [] r3 t k x3 Hwf)
        as [Habs|[ref [Href _]]]; try assumption.
      - constructor.
      - discriminate Habs.
      - exists ref. now split. }
    destruct (lookup2 t k r2) as [x2|] eqn:E2.
    { unfold load_secrets_from_env in H2.
      rewrite (@lookup2_env_targets w secrets_info [] r2 t k Hwf) in E2 by
        (try constructor; exact H2).
      unfold lookup2.
      destruct (dict_get t secrets_info) as [keys|]; [|discriminate E2].
      destruct (dict_get k keys) as [ref|]; [|discriminate E2].
      exists ref. now split. }
    unfold r1 in Hres.
    rewrite (@lookup2_inline_targets secrets_info [] t k Hwf) in Hres by constructor.
    unfold lookup2.
    destruct (dict_get t secrets_info) as [keys|]; [|discriminate Hres].
    destruct (dict_get k keys) as [ref|]; [|discriminate Hres].
    exists ref. now split.
  - intros r1' r2' r3' E1 E2 E3 t Hnone.
    injection E1 as <-. injection E2 as <-. injection E3 as <-. fold r1 in Hnone.
    destruct (dict_get t (merge_into (merge_into (merge_into [] r1) r2) r3))
      as [m|] eqn:Hm; [|reflexivity].
    exfalso. destruct (Hne t m Hm) as (k & v & Hk).
    assert (Hres : lookup2 t k (merge_into (merge_into (merge_into [] r1) r2) r3)
                   = Some v) by (unfold lookup2; now rewrite Hm).
    rewrite Hlook in Hres. destruct (Hnone k) as (N1 & N2 & N3).
    rewrite N1, N2, N3 in Hres. discriminate Hres.
Qed.

Lemma returned_targets_are_resolved_witness :
  result (load_secrets example_world unresolvable_spec (Some []))
  = inr [("t1", [("s1", VStr "v1")])] /\
  dict_get "t4" [("t1", [("s1", VStr "v1")])] = None.
Proof.
  split; [reflexivity|].
  assert (Hwf : wf_spec unresolvable_spec) by solve_wf_spec.
  destruct (@returned_targets_are_resolved example_world unresolvable_spec
              (Some []) [("t1", [("s1", VStr "v1")])] Hwf eq_refl)
    as (_ & _ & Habsent).
  apply (Habsent [("t1", [("s1", VStr "v1")])] [] [] eq_refl eq_refl eq_refl "t4").
  intros k. repeat split.
Defined.

(** ** The end-to-end examples of the specification *)

Example load_secrets_inline_and_env :
  load_secrets example_world
    [("t1", [("s1", VStr "v1")]); ("t2", [("s2", env_ref "MYVAR")])] (Some [])
  = ([Log Debug "Loading secrets..."; HvacClient VNone;
      Log Debug "Using Vault secrets KV version 2"; Log Debug "Secrets loaded"],
     inr [("t1", [("s1", VStr "v1")]); ("t2", [("s2", VStr "hello")])]).
Proof. reflexivity. Qed.

Example load_secrets_missing_payload :
  load_secrets example_world
    [("t4", [("s4", VDict [("type", VStr "vault"); ("path", VStr "missing")])])]
    (Some [])
  = ([Log Debug "Loading secrets..."; HvacClient VNone;
      Log Debug "Using Vault secrets KV version 2";
      ReadSecretVersion (VStr "missing");
      Log Warning "No Vault secret found at path: missing";
      Log Debug "Secrets loaded"],
     inr []).
Proof. reflexivity. Qed.

(** * Further properties of the module *)

(** ** create_vault_client: the answer of the role exchange *)

(** X1.  Only the call of the role exchange is guarded: an answer
    without [auth], without [client_token] under [auth], or that is not
    a dict, makes [create_vault_client] raise [KeyError] or [TypeError],
    not [InvalidExperiment]. *)
Theorem malformed_role_answer_is_not_wrapped w cfg answer :
  HAS_HVAC w = true ->
  dict_mem "vault_token" cfg = false ->
  dict_mem "vault_role_id" cfg = true ->
  dict_mem "vault_role_secret" cfg = true ->
  auth_approle w
    {| url := py_get cfg "vault_addr";
       default_kv_version :=
         py_str (py_get_default cfg "vault_kv_version" (VStr "2"));
       token := None |}
    (py_get cfg "vault_role_id") (py_get cfg "vault_role_secret")
  = inr answer ->
  result (create_vault_client w (Some cfg)) =
  match answer with
  | VDict a =>
      match dict_get "auth" a with
      | None => inl (KeyError "auth")
      | Some (VDict auth) =>
          match dict_get "client_token" auth with
          | None => inl (KeyError "client_token")
          | Some tok =>
              inr (Some {| url := py_get cfg "vault_addr";
                           default_kv_version :=
                             py_str (py_get_default cfg "vault_kv_version"
                                       (VStr "2"));
                           token := Some tok |})
          end
      | Some _ => inl TypeError
      end
  | _ => inl TypeError
  end.
Proof.
  intros Hw Htok Hid Hsec Hauth. unfold create_vault_client.
  rewrite Hw, !result_emit, Htok, Hid, Hsec. cbn [andb].
  rewrite result_emit, Hauth, result_bind.
  destruct answer as [| | | | |a]; try reflexivity.
  cbn [py_index]. destruct (dict_get "auth" a) as [au|]; [|reflexivity].
  cbn [result ret snd]. rewrite result_bind.
  destruct au as [| | | | |auth]; try reflexivity.
  cbn [py_index]. destruct (dict_get "client_token" auth); reflexivity.
Qed.

Lemma malformed_role_answer_is_not_wrapped_witness :
  result (create_vault_client
            (role_world (VDict [("errors", VList [VStr "permission denied"])]))
            (Some role_only_config))
  = inl (KeyError "auth").
Proof.
  exact (malformed_role_answer_is_not_wrapped
           (role_world (VDict [("errors", VList [VStr "permission denied"])]))
           role_only_config eq_refl eq_refl eq_refl eq_refl eq_refl).
Defined.

(** ** load_secrets with the default configuration *)

(** X2.  With the store library present, [load_secrets] called without a
    configuration raises [AttributeError] as soon as the environment
    loader returns, whatever the specification holds: the store client is
    created before the specification is looked at. *)
Theorem default_configuration_raises w secrets_info :
  HAS_HVAC w = true ->
  all_targets_resolvable w secrets_info = true ->
  load_secrets w secrets_info None =
  ([Log Debug "Loading secrets..."], inl AttributeError).
Proof.
  intros Hw Hall.
  destruct (env_targets_returns w secrets_info [] Hall) as [r2 H2].
  assert (Henv : load_secrets_from_env w secrets_info None = ret r2).
  { rewrite (M_eta (load_secrets_from_env w secrets_info None)).
    unfold load_secrets_from_env. now rewrite env_targets_trace, H2. }
  unfold load_secrets, loaders, run_loaders, load_inline_secrets.
  rewrite bind_pure, Henv, bind_pure.
  unfold load_secrets_from_vault, create_vault_client. rewrite Hw. reflexivity.
Qed.

Lemma default_configuration_raises_witness :
  load_secrets example_world [("t1", [("s1", VStr "v1")])] None =
  ([Log Debug "Loading secrets..."], inl AttributeError).
Proof.
  exact (default_configuration_raises example_world
           [("t1", [("s1", VStr "v1")])] eq_refl eq_refl).
Defined.

(** ** What each loader binds *)

Lemma lookup2_load_inline secrets_info t k :
  wf_spec secrets_info ->
  lookup2 t k (inline_targets secrets_info []) =
  match lookup2 t k secrets_info with
  | Some ref => if is_inline ref then Some ref else None
  | None => None
  end.
Proof.
  intros Hwf.
  rewrite (@lookup2_inline_targets secrets_info [] t k Hwf) by constructor.
  unfold lookup2. now destruct (dict_get t secrets_info).
Qed.

Lemma lookup2_load_env w secrets_info cfg r2 t k :
  wf_spec secrets_info ->
  result (load_secrets_from_env w secrets_info cfg) = inr r2 ->
  lookup2 t k r2 =
  match lookup2 t k secrets_info with
  | Some ref => env_value w ref
  | None => None
  end.
Proof.
  intros Hwf H2. unfold load_secrets_from_env in H2.
  rewrite (@lookup2_env_targets w secrets_info [] r2 t k Hwf) by
    (try constructor; exact H2).
  unfold lookup2. now destruct (dict_get t secrets_info).
Qed.

Lemma lookup2_load_vault w secrets_info cfg r3 t k x :
  wf_spec secrets_info ->
  result (load_secrets_from_vault w secrets_info cfg) = inr r3 ->
  lookup2 t k r3 = Some x ->
  exists ref, lookup2 t k secrets_info = Some ref /\ tagged "vault" ref = true.
Proof.
  intros Hwf H3 Hx. unfold load_secrets_from_vault in H3.
  apply result_bind_inr in H3 as (cl & _ & H3).
  destruct (@lookup2_vault_targets w cl secrets_info [] r3 t k x Hwf)
    as [Habs|Href]; try assumption.
  - constructor.
  - discriminate Habs.
Qed.

Lemma env_value_tagged w ref v : env_value w ref = Some v -> tagged "env" ref = true.
Proof.
  destruct ref as [| | | | |d]; try discriminate. simpl.
  now destruct (eq_str (py_get d "type") "env").
Qed.

Lemma is_inline_false_tagged ref :
  tagged "env" ref = true \/ tagged "vault" ref = true -> is_inline ref = false.
Proof.
  unfold is_inline. intros [H|H]; rewrite H; [reflexivity|].
  now rewrite orb_true_r.
Qed.

(** X3.  No two loaders bind the same secret: a (target, key) the inline
    loader binds is bound neither by the environment loader nor by the
    store loader, and one the environment loader binds is not bound by
    the store loader.  The order of the merge never decides a value. *)
Theorem loaders_bind_disjoint_entries w secrets_info cfg r1 r2 r3 t k :
  wf_spec secrets_info ->
  result (load_inline_secrets w secrets_info cfg) = inr r1 ->
  result (load_secrets_from_env w secrets_info cfg) = inr r2 ->
  result (load_secrets_from_vault w secrets_info cfg) = inr r3 ->
  (lookup2 t k r1 <> None -> lookup2 t k r2 = None /\ lookup2 t k r3 = None) /\
  (lookup2 t k r2 <> None -> lookup2 t k r3 = None).
Proof.
  intros Hwf H1 H2 H3. injection H1 as <-.
  rewrite (@lookup2_load_inline secrets_info t k Hwf).
  rewrite (@lookup2_load_env w secrets_info cfg r2 t k Hwf H2).
  assert (Hv : forall x, lookup2 t k r3 = Some x ->
                         exists ref, lookup2 t k secrets_info = Some ref /\
                                     tagged "vault" ref = true).
  { intros x Hx. exact (@lookup2_load_vault w secrets_info cfg r3 t k x Hwf H3 Hx). }
  destruct (lookup2 t k secrets_info) as [ref|].
  - split.
    + intros Hin. destruct (is_inline ref) eqn:Hi; [|contradiction].
      apply is_inline_tags in Hi as [He Hva]. split.
      * destruct (env_value w ref) as [v|] eqn:Ev; [|reflexivity].
        apply env_value_tagged in Ev. congruence.
      * destruct (lookup2 t k r3) as [x|]; [|reflexivity].
        destruct (Hv x eq_refl) as (ref' & [= <-] & Ht). congruence.
    + intros He. destruct (env_value w ref) as [v|] eqn:Ev; [|contradiction].
      apply env_value_tagged in Ev.
      destruct (lookup2 t k r3) as [x|]; [|reflexivity].
      destruct (Hv x eq_refl) as (ref' & [= <-] & Ht).
      apply tagged_exclusive in Ev. congruence.
  - split; intros Habs; contradiction.
Qed.

Lemma loaders_bind_disjoint_entries_witness :
  lookup2 "t2" "s2" [("t3", [("s3", VStr "shhh")])] = None.
Proof.
  refine (proj2 (@loaders_bind_disjoint_entries example_world example_spec
                   (Some []) _ [("t2", [("s2", VStr "hello")])]
                   [("t3", [("s3", VStr "shhh")])] "t2" "s2"
                   wf_example_spec eq_refl eq_refl eq_refl) _).
  discriminate.
Defined.

(** ** load_secrets_from_env, in full *)

Lemma env_keys_returns_inv w keys acc m :
  result (env_keys w keys acc) = inr m -> all_resolvable w keys = true.
Proof.
  revert acc. induction keys as [|[key value] rest IH]; intros acc H; [reflexivity|].
  rewrite env_keys_step in H. simpl. unfold resolvable.
  destruct (tagged "env" value) eqn:Ht; [|exact (IH _ H)].
  destruct value as [| | | | |d]; try discriminate Ht.
  simpl in Ht |- *. rewrite Ht.
  destruct (dict_get "key" d) as [[| | |name| |]|]; try discriminate H.
  simpl. destruct (environ w name) as [v|]; [|discriminate H].
  exact (IH _ H).
Qed.

Lemma env_targets_returns_inv w secrets_info s r :
  result (env_targets w secrets_info s) = inr r ->
  all_targets_resolvable w secrets_info = true.
Proof.
  revert s. induction secrets_info as [|[t keys] rest IH]; intros s H; [reflexivity|].
  simpl in H. apply result_bind_inr in H as (m & Hm & H).
  simpl. rewrite (env_keys_returns_inv w keys [] Hm). exact (IH _ H).
Qed.

(** X4.  The environment loader returns exactly when every env-tagged
    entry has a string [key] that names a variable of the environment.
    It then binds these entries, each to the value of its variable, and
    nothing else; it logs nothing and does not use the store. *)
Theorem env_loader_returns_iff w secrets_info cfg :
  ((exists r, result (load_secrets_from_env w secrets_info cfg) = inr r) <->
   all_targets_resolvable w secrets_info = true) /\
  (forall r t k,
      wf_spec secrets_info ->
      result (load_secrets_from_env w secrets_info cfg) = inr r ->
      lookup2 t k r =
      match lookup2 t k secrets_info with
      | Some ref => env_value w ref
      | None => None
      end) /\
  trace (load_secrets_from_env w secrets_info cfg) = [].
Proof.
  split; [|split].
  - split.
    + intros [r H]. exact (env_targets_returns_inv w secrets_info [] H).
    + intros Hall. exact (env_targets_returns w secrets_info [] Hall).
  - intros r t k Hwf H. exact (@lookup2_load_env w secrets_info cfg r t k Hwf H).
  - apply env_targets_trace.
Qed.

Lemma env_loader_returns_iff_witness :
  lookup2 "t2" "s2" [("t2", [("s2", VStr "hello")])] = Some (VStr "hello").
Proof.
  destruct (env_loader_returns_iff example_world example_spec None)
    as (_ & Hbinds & _).
  exact (Hbinds [("t2", [("s2", VStr "hello")])] "t2" "s2"
           wf_example_spec eq_refl).
Defined.

(** ** The result of load_secrets *)

(** X5.  Whenever [load_secrets] returns, every entry of the
    specification that the inline loader keeps is in the result with its
    value unchanged, also when other entries are env- or vault-tagged,
    and every (target, key) of the result is a (target, key) of the
    specification. *)
Theorem result_keeps_literals_and_names w secrets_info cfg res :
  wf_spec secrets_info ->
  result (load_secrets w secrets_info cfg) = inr res ->
  (forall t k ref,
      lookup2 t k secrets_info = Some ref -> is_inline ref = true ->
      lookup2 t k res = Some ref) /\
  (forall t k v,
      lookup2 t k res = Some v ->
      exists ref, lookup2 t k secrets_info = Some ref).
Proof.
  intros Hwf H. rewrite load_secrets_result in H.
  destruct (result (load_secrets_from_env w secrets_info cfg)) as [e|r2] eqn:H2;
    [discriminate H|].
  destruct (result (load_secrets_from_vault w secrets_info cfg)) as [e|r3] eqn:H3;
    [discriminate H|].
  injection H as <-.
  assert (Hlook : forall t k,
             lookup2 t k
               (merge_into
                  (merge_into (merge_into [] (inline_targets secrets_info [])) r2)
                  r3) =
             match lookup2 t k r3 with
             | Some x => Some x
             | None =>
                 match lookup2 t k r2 with
                 | Some x => Some x
                 | None => lookup2 t k (inline_targets secrets_info [])
                 end
             end).
  { intros t k.
    rewrite lookup2_merge_into by exact (good_load_secrets_from_vault _ _ _ H3).
    rewrite lookup2_merge_into by exact (good_load_secrets_from_env _ _ _ H2).
    rewrite lookup2_merge_into by apply good_load_inline_secrets.
    destruct (lookup2 t k r3); [reflexivity|].
    destruct (lookup2 t k r2); [reflexivity|].
    now destruct (lookup2 t k (inline_targets secrets_info [])). }
  split.
  - intros t k ref Href Hi. rewrite Hlook.
    destruct (is_inline_tags ref Hi) as [He Hv].
    destruct (lookup2 t k r3) as [x|] eqn:E3.
    { destruct (@lookup2_load_vault w secrets_info cfg r3 t k x Hwf H3 E3)
        as (ref' & Href' & Ht). congruence. }
    rewrite (@lookup2_load_env w secrets_info cfg r2 t k Hwf H2), Href.
    destruct (env_value w ref) as [v|] eqn:Ev.
    { apply env_value_tagged in Ev. congruence. }
    now rewrite (@lookup2_load_inline secrets_info t k Hwf), Href, Hi.
  - intros t k v Hv. rewrite Hlook in Hv.
    destruct (lookup2 t k r3) as [x|] eqn:E3.
    { destruct (@lookup2_load_vault w secrets_info cfg r3 t k x Hwf H3 E3)
        as (ref & Href & _). now exists ref. }
    rewrite (@lookup2_load_env w secrets_info cfg r2 t k Hwf H2) in Hv.
    rewrite (@lookup2_load_inline secrets_info t k Hwf) in Hv.
    destruct (lookup2 t k secrets_info) as [ref|]; [now exists ref|].
    discriminate Hv.
Qed.

Lemma result_keeps_literals_and_names_witness :
  lookup2 "t1" "s1"
    [("t1", [("s1", VStr "v1")]); ("t2", [("s2", VStr "hello")]);
     ("t3", [("s3", VStr "shhh")])]
  = Some (VStr "v1").
Proof.
  exact (proj1 (@result_keeps_literals_and_names example_world example_spec
                  (Some []) _ wf_example_spec eq_refl)
           "t1" "s1" (VStr "v1") eq_refl eq_refl).
Defined.

(** ** load_inline_secrets on its own result *)

Lemma inline_keys_In keys acc k v :
  In (k, v) (inline_keys keys acc) -> In (k, v) acc \/ is_inline v = true.
Proof.
  revert acc. induction keys as [|[key value] rest IH]; intros acc H; [now left|].
  rewrite inline_keys_step in H. apply IH in H as [H|H]; [|now right].
  destruct (is_inline value) eqn:Hi; [|now left].
  apply In_dict_set in H as [[= -> ->]|H]; [now right|now left].
Qed.

Lemma inline_targets_In secrets_info s t m :
  In (t, m) (inline_targets secrets_info s) ->
  In (t, m) s \/ forall k v, In (k, v) m -> is_inline v = true.
Proof.
  revert s. induction secrets_info as [|[t' keys] rest IH]; intros s H; [now left|].
  simpl in H. apply IH in H as [H|H]; [|now right].
  apply In_close_target in H as [H|[[= -> ->] _]]; [now left|].
  right. intros k v Hin. now apply inline_keys_In in Hin as [[]|Hin].
Qed.

Lemma only_literals_inline_targets secrets_info :
  only_literals (inline_targets secrets_info []) = true.
Proof.
  unfold only_literals. apply forallb_forall. intros [t m] Hin.
  apply forallb_forall. intros [k v] Hkv. simpl.
  apply inline_targets_In in Hin as [[]|Hin]. exact (Hin k v Hkv).
Qed.

(** X6.  The inline loader changes nothing in a result of its own:
    run on what it returned, it returns the same dict, with its targets
    and names in the same order. *)
Theorem load_inline_secrets_idempotent w secrets_info cfg cfg' :
  (r <- load_inline_secrets w secrets_info cfg ;; load_inline_secrets w r cfg')
  = load_inline_secrets w secrets_info cfg.
Proof.
  unfold load_inline_secrets. rewrite bind_pure. f_equal.
  destruct (good_load_inline_secrets secrets_info) as [Hwf Hall].
  apply (inline_targets_literals (inline_targets secrets_info []) []).
  - apply only_literals_inline_targets.
  - exact Hall.
  - exact Hwf.
Qed.

(** ** Exceptions of the store *)

Lemma vault_keys_skips_prefix w cl kpre keys acc :
  has_vault_ref kpre = false ->
  vault_keys w cl (kpre ++ keys)%list acc = vault_keys w cl keys acc.
Proof.
  revert acc. induction kpre as [|[key value] rest IH]; intros acc H; [reflexivity|].
  simpl in H. apply orb_false_iff in H as [Hv Hrest].
  simpl app. rewrite vault_keys_step, Hv. now apply IH.
Qed.

Lemma vault_targets_skips_prefix w cl pre secrets_info :
  has_vault_entry pre = false ->
  vault_targets w cl (pre ++ secrets_info)%list [] = vault_targets w cl secrets_info [].
Proof.
  induction pre as [|[t keys] rest IH]; intros H; [reflexivity|].
  simpl in H. apply orb_false_iff in H as [Hk Hrest].
  assert (Hkeys : vault_keys w cl keys [] = ret (Some [])).
  { rewrite <- (app_nil_r keys). now rewrite vault_keys_skips_prefix. }
  simpl app. cbn [vault_targets].
  rewrite Hkeys, bind_pure, close_target_empty. now apply IH.
Qed.

(** X7.  An exception of the store is not caught: when the read for the
    first vault-tagged entry of the specification raises, the store
    loader raises it, whatever entries come after. *)
Theorem store_exception_propagates
        w cfg c pre t kpre k d kpost post path msg :
  HAS_HVAC w = true ->
  result (create_vault_client w cfg) = inr (Some c) ->
  has_vault_entry pre = false ->
  has_vault_ref kpre = false ->
  py_get d "type" = VStr "vault" ->
  py_get d "path" = path -> path <> VNone ->
  read_of w c path = inl msg ->
  result (load_secrets_from_vault w
            (pre ++ (t, (kpre ++ (k, VDict d) :: kpost)%list) :: post)%list cfg)
  = inl (HvacError msg).
Proof.
  intros Hw Hcl Hpre Hkpre Hty Hp Hnone Hread.
  assert (Hn : is_none path = false) by (now destruct path).
  unfold load_secrets_from_vault. rewrite result_bind, Hcl.
  rewrite vault_targets_skips_prefix by exact Hpre.
  simpl. rewrite result_bind, vault_keys_skips_prefix by exact Hkpre.
  rewrite vault_keys_step. simpl. rewrite Hty, Hw. simpl.
  rewrite result_bind. unfold vault_entry. rewrite Hp, Hn.
  unfold read_of in Hread. rewrite result_bind.
  destruct (String.eqb (default_kv_version c) "1");
    rewrite result_emit, Hread; reflexivity.
Qed.

Lemma store_exception_propagates_witness :
  result (load_secrets_from_vault refusing_world example_spec (Some []))
  = inl (HvacError "permission denied").
Proof.
  apply (@store_exception_propagates refusing_world (Some [])
           (client_of_version "2")
           [("t1", [("s1", VStr "v1")]); ("t2", [("s2", env_ref "MYVAR")])]
           "t3" [] "s3"
           [("type", VStr "vault"); ("path", VStr "foo/bar"); ("key", VStr "pw")]
           [] [] (VStr "foo/bar") "permission denied");
    try reflexivity.
  discriminate.
Defined.

(** ** The reads of the store *)

Lemma reads_app a b : reads (a ++ b)%list = (reads a ++ reads b)%list.
Proof. unfold reads. apply flat_map_app. Qed.

Lemma py_get_attr_trace obj k dflt : trace (py_get_attr obj k dflt) = [].
Proof. now destruct obj. Qed.

Lemma py_index_trace obj k : trace (py_index obj k) = [].
Proof.
  destruct obj as [| | | | |d]; try reflexivity.
  simpl. now destruct (dict_get k d).
Qed.

Lemma py_contains_trace obj x : trace (py_contains obj x) = [].
Proof. destruct obj; try reflexivity; now destruct x. Qed.

Lemma py_get_value_trace obj x : trace (py_get_value obj x) = [].
Proof. destruct obj; try reflexivity; now destruct x. Qed.

Lemma trace_bind_silent {A B} (m : M A) (f : A -> M B) :
  trace m = [] ->
  trace (bind m f) = match result m with inl _ => [] | inr a => trace (f a) end.
Proof. intros H. now rewrite trace_bind, H. Qed.

(** One entry reads the store once, before anything else it does. *)
Lemma vault_entry_reads w cl key d acc :
  reads (trace (vault_entry w cl key d acc)) =
  if is_none (py_get d "path") then []
  else match cl with None => [] | Some _ => [py_get d "path"] end.
Proof.
  unfold vault_entry. destruct (is_none (py_get d "path")); [reflexivity|].
  destruct cl as [c|]; [|reflexivity].
  rewrite trace_bind, reads_app.
  match goal with
  | |- context [match _ with inl _ => [] | inr a => trace (@?K a) end] =>
      assert (HK : forall a, reads (trace (K a)) = [])
  end.
  { intros payload. cbv beta.
    destruct (negb (truthy payload)); [reflexivity|].
    assert (Hdata :
              trace (if String.eqb (default_kv_version c) "1"
                     then py_get_attr payload "data" VNone
                     else inner <- py_get_attr payload "data" (VDict []) ;;
                          py_get_attr inner "data" VNone) = []).
    { destruct (String.eqb (default_kv_version c) "1");
        [apply py_get_attr_trace|].
      rewrite trace_bind_silent by apply py_get_attr_trace.
      destruct (result _); [reflexivity|apply py_get_attr_trace]. }
    rewrite trace_bind_silent by exact Hdata.
    destruct (result _) as [e|data]; [reflexivity|].
    destruct (dict_mem "key" d); [|reflexivity].
    rewrite trace_bind_silent by apply py_index_trace.
    destruct (result _) as [e|vault_key]; [reflexivity|].
    rewrite trace_bind_silent by apply py_contains_trace.
    destruct (result _) as [e|present]; [reflexivity|].
    destruct (negb present); [reflexivity|].
    rewrite trace_bind_silent by apply py_get_value_trace.
    destruct (result _); reflexivity. }
  destruct (String.eqb (default_kv_version c) "1").
  - destruct (read_secret w c (py_get d "path")) as [msg|payload]; simpl;
      [reflexivity|].
    now rewrite HK.
  - destruct (read_secret_version w c (py_get d "path")) as [msg|payload]; simpl;
      [reflexivity|].
    now rewrite HK.
Qed.

Lemma vault_keys_some w cl keys acc o :
  HAS_HVAC w = true ->
  result (vault_keys w cl keys acc) = inr o -> exists m, o = Some m.
Proof.
  intros Hw. revert acc. induction keys as [|[key value] rest IH]; intros acc H.
  - injection H as <-. now exists acc.
  - rewrite vault_keys_step, Hw in H. cbn [negb] in H.
    destruct (tagged "vault" value); [|exact (IH _ H)].
    destruct value as [| | | | |d]; try exact (IH _ H).
    apply result_bind_inr in H as (acc' & _ & H). exact (IH _ H).
Qed.

Lemma vault_keys_reads w c keys acc :
  HAS_HVAC w = true ->
  exists rest,
    vault_paths keys =
    (reads (trace (vault_keys w (Some c) keys acc)) ++ rest)%list /\
    (forall o, result (vault_keys w (Some c) keys acc) = inr o -> rest = []).
Proof.
  intros Hw. revert acc. induction keys as [|[key value] rest IH]; intros acc.
  - exists []. split; [reflexivity|auto].
  - rewrite vault_keys_step, Hw. cbn [negb].
    unfold vault_paths. cbn [flat_map snd]. fold (vault_paths rest).
    destruct value as [| | | | |d]; cbn [tagged]; try apply IH.
    destruct (eq_str (py_get d "type") "vault"); cbn [andb]; [|apply IH].
    rewrite trace_bind, reads_app, vault_entry_reads, result_bind.
    destruct (result (vault_entry w (Some c) key d acc)) as [e|acc'].
    + exists (vault_paths rest). split; [|discriminate].
      rewrite app_nil_r. now destruct (is_none (py_get d "path")).
    + destruct (IH acc') as (rest' & Hrest & Hnil).
      exists rest'. split; [|exact Hnil].
      rewrite Hrest, app_assoc. now destruct (is_none (py_get d "path")).
Qed.

Lemma vault_targets_reads w c secrets_info s :
  HAS_HVAC w = true ->
  exists rest,
    spec_vault_paths secrets_info =
    (reads (trace (vault_targets w (Some c) secrets_info s)) ++ rest)%list /\
    (forall r, result (vault_targets w (Some c) secrets_info s) = inr r ->
               rest = []).
Proof.
  intros Hw. revert s. induction secrets_info as [|[t keys] others IH]; intros s.
  - exists []. split; [reflexivity|auto].
  - cbn [vault_targets]. unfold spec_vault_paths. cbn [flat_map snd].
    fold (spec_vault_paths others).
    destruct (vault_keys_reads w c keys [] Hw) as (rest1 & Hkeys & Hnil1).
    rewrite trace_bind, reads_app, result_bind.
    destruct (result (vault_keys w (Some c) keys [])) as [e|o] eqn:Ho.
    + exists (rest1 ++ spec_vault_paths others)%list. split; [|discriminate].
      now rewrite Hkeys, app_nil_r, app_assoc.
    + destruct (vault_keys_some w (Some c) keys [] Hw Ho) as [m ->].
      rewrite (Hnil1 (Some m) eq_refl), app_nil_r in Hkeys.
      destruct (IH (close_target t m s)) as (rest2 & Hothers & Hnil2).
      exists rest2. split; [|exact Hnil2].
      now rewrite Hkeys, Hothers, app_assoc.
Qed.

Lemma create_vault_client_reads w cfg :
  reads (trace (create_vault_client w cfg)) = [].
Proof.
  unfold create_vault_client. destruct (HAS_HVAC w); [|reflexivity].
  destruct cfg as [configuration|]; [|reflexivity].
  cbv zeta. rewrite emit_bind. cbn [trace fst].
  rewrite emit_bind. cbn [trace fst reads flat_map app].
  destruct (dict_mem "vault_token" configuration); [reflexivity|].
  destruct (dict_mem "vault_role_id" configuration
            && dict_mem "vault_role_secret" configuration); [|reflexivity].
  rewrite emit_bind. cbn [trace fst reads flat_map app].
  destruct (auth_approle w _ _ _) as [ve|app_role]; [reflexivity|].
  rewrite trace_bind_silent by apply py_index_trace.
  destruct (result _) as [e|auth]; [reflexivity|].
  rewrite trace_bind_silent by apply py_index_trace.
  destruct (result _); reflexivity.
Qed.

Lemma create_vault_client_returns_client w cfg cl :
  HAS_HVAC w = true ->
  result (create_vault_client w cfg) = inr cl -> exists c, cl = Some c.
Proof.
  intros Hw H. unfold create_vault_client in H. rewrite Hw in H.
  destruct cfg as [configuration|]; [|discriminate H].
  inv_result H; subst cl; eexists; reflexivity.
Qed.

Lemma load_secrets_from_vault_reads w secrets_info cfg :
  exists rest,
    spec_vault_paths secrets_info =
    (reads (trace (load_secrets_from_vault w secrets_info cfg)) ++ rest)%list /\
    (HAS_HVAC w = true ->
     forall r, result (load_secrets_from_vault w secrets_info cfg) = inr r ->
               rest = []) /\
    (HAS_HVAC w = false ->
     reads (trace (load_secrets_from_vault w secrets_info cfg)) = []).
Proof.
  destruct (HAS_HVAC w) eqn:Hw.
  - unfold load_secrets_from_vault.
    rewrite trace_bind, reads_app, create_vault_client_reads, result_bind.
    destruct (result (create_vault_client w cfg)) as [e|cl] eqn:Hcl.
    + exists (spec_vault_paths secrets_info).
      split; [reflexivity|]. split; [|discriminate].
      intros _ r Hr. discriminate Hr.
    + destruct (create_vault_client_returns_client w cfg Hw Hcl) as [c ->].
      destruct (vault_targets_reads w c secrets_info [] Hw) as (rest & Hrest & Hnil).
      exists rest. split; [exact Hrest|]. split; [|discriminate].
      intros _ r Hr. exact (Hnil r Hr).
  - assert (Hv : load_secrets_from_vault w secrets_info cfg =
                 ((if has_vault_entry secrets_info
                   then [Log Error hvac_missing] else []), inr [])).
    { unfold load_secrets_from_vault, create_vault_client. rewrite Hw, bind_pure.
      now apply vault_targets_no_hvac. }
    rewrite Hv. exists (spec_vault_paths secrets_info).
    destruct (has_vault_entry secrets_info);
      (split; [reflexivity|]; split; [discriminate|reflexivity]).
Qed.

Lemma load_secrets_trace w secrets_info cfg :
  trace (load_secrets w secrets_info cfg) =
  Log Debug "Loading secrets..." ::
  match result (load_secrets_from_env w secrets_info cfg) with
  | inl _ => []
  | inr _ =>
      (trace (load_secrets_from_vault w secrets_info cfg) ++
       match result (load_secrets_from_vault w secrets_info cfg) with
       | inl _ => []
       | inr _ => [Log Debug "Secrets loaded"]
       end)%list
  end.
Proof.
  assert (Henv : trace (load_secrets_from_env w secrets_info cfg) = [])
    by apply env_targets_trace.
  unfold load_secrets, loaders, run_loaders, load_inline_secrets.
  rewrite !bind_pure.
  destruct (load_secrets_from_env w secrets_info cfg) as [t2 [e|r2]];
    simpl in Henv; subst t2; [reflexivity|].
  destruct (load_secrets_from_vault w secrets_info cfg) as [t3 [e|r3]]; simpl.
  - now rewrite app_nil_r.
  - now rewrite app_nil_r.
Qed.

(** X8.  The store is read for the vault-tagged entries that have a
    path, once each, in the order of the specification, and for nothing
    else: the paths [load_secrets] reads are always an initial part of
    these paths, all of them when the call returns with the store
    library present, and none without the library. *)
Theorem store_reads_follow_the_specification w secrets_info cfg :
  exists rest,
    spec_vault_paths secrets_info =
    (reads (trace (load_secrets w secrets_info cfg)) ++ rest)%list /\
    (HAS_HVAC w = true ->
     forall res, result (load_secrets w secrets_info cfg) = inr res ->
                 rest = []) /\
    (HAS_HVAC w = false -> reads (trace (load_secrets w secrets_info cfg)) = []).
Proof.
  rewrite load_secrets_trace, load_secrets_result.
  destruct (result (load_secrets_from_env w secrets_info cfg)) as [e|r2].
  - exists (spec_vault_paths secrets_info).
    split; [reflexivity|]. split; [discriminate|reflexivity].
  - destruct (load_secrets_from_vault_reads w secrets_info cfg)
      as (rest & Hrest & Hret & Hno).
    assert (Hr : reads
                   (Log Debug "Loading secrets..." ::
                    trace (load_secrets_from_vault w secrets_info cfg) ++
                    match result (load_secrets_from_vault w secrets_info cfg) with
                    | inl _ => []
                    | inr _ => [Log Debug "Secrets loaded"]
                    end)%list
                 = reads (trace (load_secrets_from_vault w secrets_info cfg))).
    { change (Log Debug "Loading secrets..." :: ?l)
        with ([Log Debug "Loading secrets..."] ++ l)%list.
      rewrite !reads_app.
      destruct (result (load_secrets_from_vault w secrets_info cfg));
        simpl; now rewrite app_nil_r. }
    rewrite Hr. exists rest. split; [exact Hrest|]. split; [|exact Hno].
    intros Hw res Hres.
    destruct (result (load_secrets_from_vault w secrets_info cfg)) as [e|r3] eqn:H3;
      [discriminate Hres|].
    exact (Hret Hw r3 eq_refl).
Qed.

Lemma store_reads_follow_the_specification_witness :
  reads (trace (load_secrets example_world two_paths_spec (Some [])))
  = [VStr "foo/bar"; VStr "missing"] /\
  reads (trace (load_secrets example_world_no_hvac two_paths_spec (Some []))) = [].
Proof.
  split.
  - destruct (store_reads_follow_the_specification
                example_world two_paths_spec (Some []))
      as (rest & Hrest & Hret & _).
    rewrite (Hret eq_refl [("t3", [("s1", VStr "v1"); ("s3", VStr "shhh")])] eq_refl),
      app_nil_r in Hrest.
    symmetry. exact Hrest.
  - destruct (store_reads_follow_the_specification
                example_world_no_hvac two_paths_spec (Some []))
      as (rest & _ & _ & Hno).
    exact (Hno eq_refl).
Defined.

(** ** Vault-tagged entries without the store library *)

Lemma load_secrets_from_vault_no_hvac w secrets_info cfg :
  HAS_HVAC w = false ->
  result (load_secrets_from_vault w secrets_info cfg) = inr [].
Proof.
  intros Hw. unfold load_secrets_from_vault, create_vault_client.
  rewrite Hw, bind_pure, vault_targets_no_hvac by exact Hw. reflexivity.
Qed.

(** X9.  Without the store library a vault-tagged entry is dropped: when
    [load_secrets] returns, the result has no value for it, neither its
    reference nor a placeholder. *)
Theorem vault_entries_dropped_without_library w secrets_info cfg res t k ref :
  HAS_HVAC w = false ->
  wf_spec secrets_info ->
  result (load_secrets w secrets_info cfg) = inr res ->
  lookup2 t k secrets_info = Some ref ->
  tagged "vault" ref = true ->
  lookup2 t k res = None.
Proof.
  intros Hw Hwf H Href Ht. rewrite load_secrets_result in H.
  destruct (result (load_secrets_from_env w secrets_info cfg)) as [e|r2] eqn:H2;
    [discriminate H|].
  rewrite (load_secrets_from_vault_no_hvac w secrets_info cfg Hw) in H.
  injection H as <-. simpl.
  rewrite lookup2_merge_into by exact (good_load_secrets_from_env _ _ _ H2).
  rewrite lookup2_merge_into by apply good_load_inline_secrets.
  rewrite (@lookup2_load_env w secrets_info cfg r2 t k Hwf H2), Href.
  rewrite (@lookup2_load_inline secrets_info t k Hwf), Href.
  rewrite (is_inline_false_tagged ref (or_intror Ht)).
  destruct (env_value w ref) as [v|] eqn:Ev; [|reflexivity].
  apply env_value_tagged, tagged_exclusive in Ev. congruence.
Qed.

Lemma vault_entries_dropped_without_library_witness :
  lookup2 "t3" "s3"
    [("t1", [("s1", VStr "v1")]); ("t2", [("s2", VStr "hello")])] = None.
Proof.
  exact (@vault_entries_dropped_without_library example_world_no_hvac
           example_spec None _ "t3" "s3" (vault_ref "foo/bar" "pw")
           eq_refl wf_example_spec eq_refl eq_refl eq_refl).
Defined.

(** ** Entries the store loader leaves out *)

Lemma vault_entry_skipped w c key d acc :
  skipped w c d -> result (vault_entry w (Some c) key d acc) = inr acc.
Proof.
  intros [Hp|(Hp & payload & Hread & [Ht|(data & name & Hdata & Hk & Hname)])].
  - now rewrite vault_entry_skips_missing_path.
  - now rewrite (@vault_entry_skips_empty_payload w c key d acc
                   (py_get d "path") payload eq_refl Hp Hread Ht).
  - exact (@vault_entry_skips_missing_key w c key d acc (py_get d "path")
             payload data name eq_refl Hp Hread Hdata Hk Hname).
Qed.

Lemma vault_keys_drop w cl kpre k d kpost acc :
  HAS_HVAC w = true ->
  (forall acc', result (vault_entry w cl k d acc') = inr acc') ->
  result (vault_keys w cl (kpre ++ (k, VDict d) :: kpost)%list acc) =
  result (vault_keys w cl (kpre ++ kpost)%list acc).
Proof.
  intros Hw Hskip. revert acc.
  induction kpre as [|[k0 v0] rest IH]; intros acc; simpl app.
  - rewrite vault_keys_step, Hw. cbn [negb].
    destruct (tagged "vault" (VDict d)); [|reflexivity].
    now rewrite result_bind, Hskip.
  - rewrite !vault_keys_step, Hw. cbn [negb].
    destruct (tagged "vault" v0); [|apply IH].
    destruct v0 as [| | | | |d0]; try apply IH.
    rewrite !result_bind.
    destruct (result (vault_entry w cl k0 d0 acc)); [reflexivity|apply IH].
Qed.

Lemma vault_targets_congr w cl pre t keys keys' post s :
  result (vault_keys w cl keys []) = result (vault_keys w cl keys' []) ->
  result (vault_targets w cl (pre ++ (t, keys) :: post)%list s) =
  result (vault_targets w cl (pre ++ (t, keys') :: post)%list s).
Proof.
  intros H. revert s. induction pre as [|[t0 k0] rest IH]; intros s; simpl app;
    cbn [vault_targets]; rewrite !result_bind.
  - now rewrite H.
  - destruct (result (vault_keys w cl k0 [])) as [e|[m|]];
      [reflexivity|apply IH|reflexivity].
Qed.

Lemma inline_keys_drop kpre k v kpost acc :
  is_inline v = false ->
  inline_keys (kpre ++ (k, v) :: kpost)%list acc = inline_keys (kpre ++ kpost)%list acc.
Proof.
  intros Hv. revert acc. induction kpre as [|[k0 v0] rest IH]; intros acc; simpl app.
  - now rewrite inline_keys_step, Hv.
  - rewrite !inline_keys_step. apply IH.
Qed.

Lemma inline_targets_congr pre t keys keys' post s :
  inline_keys keys [] = inline_keys keys' [] ->
  inline_targets (pre ++ (t, keys) :: post)%list s =
  inline_targets (pre ++ (t, keys') :: post)%list s.
Proof.
  intros H. revert s. induction pre as [|[t0 k0] rest IH]; intros s; simpl.
  - now rewrite H.
  - apply IH.
Qed.

Lemma env_keys_drop w kpre k v kpost acc :
  tagged "env" v = false ->
  env_keys w (kpre ++ (k, v) :: kpost)%list acc = env_keys w (kpre ++ kpost)%list acc.
Proof.
  intros Hv. revert acc. induction kpre as [|[k0 v0] rest IH]; intros acc; simpl app.
  - now rewrite env_keys_step, Hv.
  - rewrite !env_keys_step.
    destruct (tagged "env" v0); [|apply IH].
    destruct v0 as [| | | | |d0]; try apply IH.
    destruct (dict_get "key" d0) as [[| | |name| |]|]; try reflexivity.
    destruct (environ w name); [apply IH|reflexivity].
Qed.

Lemma env_targets_congr w pre t keys keys' post s :
  env_keys w keys [] = env_keys w keys' [] ->
  env_targets w (pre ++ (t, keys) :: post)%list s =
  env_targets w (pre ++ (t, keys') :: post)%list s.
Proof.
  intros H. revert s. induction pre as [|[t0 k0] rest IH]; intros s; simpl.
  - now rewrite H.
  - destruct (env_keys w k0 []) as [tr [e|m]]; [reflexivity|].
    unfold bind. now rewrite IH.
Qed.

Lemma tagged_vault_not_env ref :
  tagged "vault" ref = true -> tagged "env" ref = false.
Proof.
  intros Hv. destruct (tagged "env" ref) eqn:He; [|reflexivity].
  apply tagged_exclusive in He. congruence.
Qed.

(** X10.  A vault-tagged entry that the store loader leaves out (no
    path, an empty payload, or a named key that the data dict of the
    payload does not have) changes nothing for the other entries:
    [load_secrets] returns, or raises, what it does for the specification
    without that entry. *)
Theorem skipped_entry_changes_nothing
        w cfg c pre t kpre k d kpost post :
  HAS_HVAC w = true ->
  result (create_vault_client w cfg) = inr (Some c) ->
  py_get d "type" = VStr "vault" ->
  skipped w c d ->
  result (load_secrets w
            (pre ++ (t, (kpre ++ (k, VDict d) :: kpost)%list) :: post)%list cfg)
  = result (load_secrets w (pre ++ (t, (kpre ++ kpost)%list) :: post)%list cfg).
Proof.
  intros Hw Hcl Hty Hskip.
  assert (Ht : tagged "vault" (VDict d) = true) by (simpl; now rewrite Hty).
  assert (He : load_secrets_from_env w
                 (pre ++ (t, (kpre ++ (k, VDict d) :: kpost)%list) :: post)%list cfg
               = load_secrets_from_env w
                   (pre ++ (t, (kpre ++ kpost)%list) :: post)%list cfg).
  { unfold load_secrets_from_env.
    apply env_targets_congr, env_keys_drop, tagged_vault_not_env, Ht. }
  assert (Hi : inline_targets
                 (pre ++ (t, (kpre ++ (k, VDict d) :: kpost)%list) :: post)%list []
               = inline_targets (pre ++ (t, (kpre ++ kpost)%list) :: post)%list []).
  { apply inline_targets_congr, inline_keys_drop, is_inline_false_tagged.
    now right. }
  assert (Hv : result (load_secrets_from_vault w
                         (pre ++ (t, (kpre ++ (k, VDict d) :: kpost)%list) :: post)%list
                         cfg)
               = result (load_secrets_from_vault w
                           (pre ++ (t, (kpre ++ kpost)%list) :: post)%list cfg)).
  { unfold load_secrets_from_vault. rewrite !result_bind, Hcl.
    apply vault_targets_congr, vault_keys_drop; [exact Hw|].
    intros acc'. now apply vault_entry_skipped. }
  now rewrite !load_secrets_result, He, Hi, Hv.
Qed.

Lemma skipped_entry_changes_nothing_witness :
  result (load_secrets example_world two_paths_spec (Some []))
  = result (load_secrets example_world
              [("t3", [("s3", vault_ref "foo/bar" "pw"); ("s1", VStr "v1");
                       ("s5", VDict [("type", VStr "vault")])]);
               ("t4", [])]
              (Some [])).
Proof.
  apply (@skipped_entry_changes_nothing example_world (Some [])
           (client_of_version "2")
           [("t3", [("s3", vault_ref "foo/bar" "pw"); ("s1", VStr "v1");
                    ("s5", VDict [("type", VStr "vault")])])]
           "t4" [] "s4" [("type", VStr "vault"); ("path", VStr "missing")] [] []
           eq_refl eq_refl eq_refl).
  right. split; [discriminate|].
  exists VNone. split; [reflexivity|]. now left.
Defined.

(** ** Payloads without data *)

Lemma vault_entry_after_read w c key d acc path payload :
  py_get d "path" = path -> path <> VNone ->
  read_of w c path = inr payload ->
  truthy payload = true ->
  vault_entry w (Some c) key d acc =
  (read_event c path ::
   trace (data <-
            (if String.eqb (default_kv_version c) "1"
             then py_get_attr payload "data" VNone
             else inner <- py_get_attr payload "data" (VDict []) ;;
                  py_get_attr inner "data" VNone) ;;
          if dict_mem "key" d then
            vault_key <- py_index (VDict d) "key" ;;
            present <- py_contains data vault_key ;;
            if negb present then
              emit (Log Warning ("No Vault key '" ++ py_str vault_key
                                 ++ "' at secret path '" ++ py_str path ++ "'")) ;;
              ret acc
            else
              v <- py_get_value data vault_key ;;
              ret (dict_set key v acc)
          else ret (dict_set key data acc)),
   result (data <-
            (if String.eqb (default_kv_version c) "1"
             then py_get_attr payload "data" VNone
             else inner <- py_get_attr payload "data" (VDict []) ;;
                  py_get_attr inner "data" VNone) ;;
          if dict_mem "key" d then
            vault_key <- py_index (VDict d) "key" ;;
            present <- py_contains data vault_key ;;
            if negb present then
              emit (Log Warning ("No Vault key '" ++ py_str vault_key
                                 ++ "' at secret path '" ++ py_str path ++ "'")) ;;
              ret acc
            else
              v <- py_get_value data vault_key ;;
              ret (dict_set key v acc)
          else ret (dict_set key data acc))).
Proof.
  intros Hp Hnone Hread Ht.
  assert (Hn : is_none path = false) by (now destruct path).
  unfold vault_entry, read_of, read_event in *. rewrite Hp, Hn.
  destruct (String.eqb (default_kv_version c) "1");
    rewrite Hread; unfold call_store; rewrite bind_emit_ret, Ht; reflexivity.
Qed.

(** X11.  When the payload is not empty but has no data (the field is
    absent or null), an entry that names a key makes the store loader
    raise [TypeError], whatever the key is, and an entry that names none
    is bound to [None]: it is neither skipped nor reported. *)
Theorem payload_without_data w c key d acc path payload :
  py_get d "path" = path -> path <> VNone ->
  read_of w c path = inr payload ->
  null_data (String.eqb (default_kv_version c) "1") payload ->
  (forall vault_key,
      dict_get "key" d = Some vault_key ->
      vault_entry w (Some c) key d acc = ([read_event c path], inl TypeError)) /\
  (dict_get "key" d = None ->
   vault_entry w (Some c) key d acc =
   ([read_event c path], inr (dict_set key VNone acc))).
Proof.
  intros Hp Hnone Hread Hnull.
  destruct payload as [| | | | |p]; try contradiction.
  destruct Hnull as [Hne Hdata].
  assert (Ht : truthy (VDict p) = true) by (now destruct p).
  rewrite (vault_entry_after_read w c key d acc Hp Hnone Hread Ht).
  assert (Hd : (if String.eqb (default_kv_version c) "1"
                then py_get_attr (VDict p) "data" VNone
                else inner <- py_get_attr (VDict p) "data" (VDict []) ;;
                     py_get_attr inner "data" VNone) = ret VNone).
  { destruct (String.eqb (default_kv_version c) "1").
    - cbn [py_get_attr]. unfold py_get_default, py_get in *.
      destruct (dict_get "data" p); now rewrite ?Hdata.
    - destruct Hdata as (inner & Hinner & Hdata).
      cbn [py_get_attr]. rewrite bind_pure, Hinner. cbn [py_get_attr].
      unfold py_get_default, py_get in *.
      destruct (dict_get "data" inner); now rewrite ?Hdata. }
  rewrite Hd, bind_pure. split.
  - intros vault_key Hk. unfold dict_mem. rewrite Hk.
    cbn [py_index]. rewrite Hk, bind_pure. reflexivity.
  - intros Hk. unfold dict_mem. rewrite Hk. reflexivity.
Qed.

Lemma payload_without_data_witness :
  vault_entry deleted_version_world (Some (client_of_version "2")) "s3"
    [("type", VStr "vault"); ("path", VStr "foo/bar")] []
  = ([ReadSecretVersion (VStr "foo/bar")], inr [("s3", VNone)]).
Proof.
  refine (proj2 (@payload_without_data deleted_version_world
                   (client_of_version "2") "s3"
                   [("type", VStr "vault"); ("path", VStr "foo/bar")] []
                   (VStr "foo/bar") _ eq_refl _ eq_refl _) eq_refl).
  - discriminate.
  - split; [discriminate|].
    exists [("data", VNone); ("metadata", VDict [("destroyed", VBool true)])].
    split; reflexivity.
Defined.

(** ** The store loader, entry by entry *)

Lemma vault_keys_preserves w cl keys acc m k :
  ~ In k (keys_of keys) ->
  result (vault_keys w cl keys acc) = inr (Some m) ->
  dict_get k m = dict_get k acc.
Proof.
  revert acc. induction keys as [|[k0 v0] rest IH]; intros acc Hk H.
  - now injection H as <-.
  - assert (Hne : k <> k0) by (intros ->; apply Hk; now left).
    assert (Hrest : ~ In k (keys_of rest)) by (intros Hin; apply Hk; now right).
    rewrite vault_keys_step in H.
    destruct (tagged "vault" v0); [|exact (IH _ Hrest H)].
    destruct (negb (HAS_HVAC w)); [discriminate H|].
    destruct v0 as [| | | | |d0]; try exact (IH _ Hrest H).
    apply result_bind_inr in H as (acc' & Hacc' & H).
    rewrite (IH _ Hrest H).
    apply vault_entry_result in Hacc' as [->|[v ->]]; [reflexivity|].
    now apply dict_get_set_neq.
Qed.

Lemma vault_keys_lookup_at w cl keys acc m k d :
  wf_dict keys ->
  result (vault_keys w cl keys acc) = inr (Some m) ->
  dict_get k keys = Some (VDict d) ->
  tagged "vault" (VDict d) = true ->
  exists acc0 acc1,
    result (vault_entry w cl k d acc0) = inr acc1 /\
    dict_get k m = dict_get k acc1.
Proof.
  revert acc. induction keys as [|[k0 v0] rest IH]; intros acc Hwf H Hk Ht;
    [discriminate Hk|].
  unfold wf_dict in Hwf. simpl in Hwf. inversion Hwf as [|? ? Hnin Hr]; subst.
  simpl in Hk. rewrite vault_keys_step in H.
  destruct (String.eqb_spec k k0) as [->|Hne].
  - injection Hk as ->. rewrite Ht in H.
    destruct (negb (HAS_HVAC w)); [discriminate H|].
    apply result_bind_inr in H as (acc' & Hacc' & H).
    exists acc, acc'. split; [exact Hacc'|].
    exact (vault_keys_preserves w cl rest acc' k0 Hnin H).
  - destruct (tagged "vault" v0); [|exact (IH _ Hr H Hk Ht)].
    destruct (negb (HAS_HVAC w)); [discriminate H|].
    destruct v0 as [| | | | |d0]; try exact (IH _ Hr H Hk Ht).
    apply result_bind_inr in H as (acc' & _ & H).
    exact (IH _ Hr H Hk Ht).
Qed.

Lemma vault_targets_preserves w cl secrets_info s r t :
  HAS_HVAC w = true ->
  dict_get t secrets_info = None ->
  result (vault_targets w cl secrets_info s) = inr r ->
  dict_get t r = dict_get t s.
Proof.
  intros Hw. revert s.
  induction secrets_info as [|[t0 keys] rest IH]; intros s Ht H.
  - now injection H as <-.
  - simpl in Ht. destruct (String.eqb_spec t t0) as [->|Hne]; [discriminate Ht|].
    simpl in H. apply result_bind_inr in H as (o & Ho & H).
    destruct (vault_keys_some w cl keys [] Hw Ho) as [m ->].
    rewrite (IH _ Ht H). now apply dict_get_close_neq.
Qed.

Lemma vault_targets_lookup_at w cl secrets_info s r t keys :
  HAS_HVAC w = true ->
  wf_spec secrets_info -> wf_dict s ->
  result (vault_targets w cl secrets_info s) = inr r ->
  dict_get t secrets_info = Some keys ->
  exists m,
    result (vault_keys w cl keys []) = inr (Some m) /\
    forall k, lookup2 t k r = dict_get k m.
Proof.
  intros Hw. revert s.
  induction secrets_info as [|[t0 keys0] rest IH]; intros s Hwf Hs H Ht;
    [discriminate Ht|].
  apply wf_spec_cons in Hwf as (Hkeys & Hfresh & Hrest).
  simpl in Ht. simpl in H. apply result_bind_inr in H as (o & Ho & H).
  destruct (vault_keys_some w cl keys0 [] Hw Ho) as [m ->].
  destruct (String.eqb_spec t t0) as [->|Hne].
  - injection Ht as <-. exists m. split; [exact Ho|].
    intros k. unfold lookup2.
    rewrite (vault_targets_preserves w cl rest (close_target t0 m s) t0 Hw Hfresh H).
    rewrite dict_get_close_eq by exact Hs. now destruct m.
  - exact (IH _ Hrest (wf_close_target t0 m Hs) H Ht).
Qed.

Lemma load_secrets_from_vault_lookup_at w cfg c secrets_info r t k d :
  HAS_HVAC w = true ->
  result (create_vault_client w cfg) = inr (Some c) ->
  wf_spec secrets_info ->
  result (load_secrets_from_vault w secrets_info cfg) = inr r ->
  lookup2 t k secrets_info = Some (VDict d) ->
  tagged "vault" (VDict d) = true ->
  exists acc0 acc1,
    result (vault_entry w (Some c) k d acc0) = inr acc1 /\
    lookup2 t k r = dict_get k acc1.
Proof.
  intros Hw Hcl Hwf H Hlook Ht.
  unfold load_secrets_from_vault in H. rewrite result_bind, Hcl in H.
  unfold lookup2 in Hlook.
  destruct (dict_get t secrets_info) as [keys|] eqn:Hkeys; [|discriminate Hlook].
  assert (Hnil : wf_dict (A := dict value) []) by constructor.
  destruct (@vault_targets_lookup_at w (Some c) secrets_info [] r t keys Hw Hwf Hnil H Hkeys)
    as (m & Hm & Hr).
  assert (Hwk : wf_dict keys).
  { apply (proj2 Hwf t keys). now apply dict_get_In. }
  destruct (@vault_keys_lookup_at w (Some c) keys [] m k d Hwk Hm Hlook Ht)
    as (acc0 & acc1 & Hentry & Hget).
  exists acc0, acc1. split; [exact Hentry|]. now rewrite Hr.
Qed.

(** ** The kind of the reads *)

Lemma reads_of_kind_app v1 a b :
  reads_of_kind v1 (a ++ b)%list = (reads_of_kind v1 a ++ reads_of_kind v1 b)%list.
Proof. unfold reads_of_kind. apply flat_map_app. Qed.

Lemma reads_of_kind_nil v1 tr : reads tr = [] -> reads_of_kind v1 tr = [].
Proof.
  induction tr as [|e tr IH]; [reflexivity|].
  destruct e; simpl; try exact IH; discriminate.
Qed.

Lemma reads_of_kind_all v1 tr :
  reads_of_kind (negb v1) tr = [] -> reads_of_kind v1 tr = reads tr.
Proof.
  induction tr as [|e tr IH]; [reflexivity|].
  destruct e; simpl; try exact IH; destruct v1; simpl;
    try discriminate; intros H; now rewrite IH.
Qed.

Lemma vault_entry_trace_head w c key d acc :
  is_none (py_get d "path") = false ->
  exists tr,
    trace (vault_entry w (Some c) key d acc) =
    read_event c (py_get d "path") :: tr.
Proof.
  intros Hn. unfold vault_entry, read_event. rewrite Hn, trace_bind.
  destruct (String.eqb (default_kv_version c) "1");
    rewrite emit_bind; cbn [trace fst app]; eexists; reflexivity.
Qed.

Lemma vault_entry_unused_kind w c key d acc :
  reads_of_kind (negb (String.eqb (default_kv_version c) "1"))
    (trace (vault_entry w (Some c) key d acc)) = [].
Proof.
  pose proof (vault_entry_reads w (Some c) key d acc) as Hreads.
  destruct (is_none (py_get d "path")) eqn:Hn.
  - now apply reads_of_kind_nil.
  - destruct (vault_entry_trace_head w c key d acc Hn) as [tr Htr].
    rewrite Htr in Hreads |- *.
    assert (Htail : reads tr = []).
    { unfold read_event in Hreads.
      destruct (String.eqb (default_kv_version c) "1"); simpl in Hreads;
        now injection Hreads. }
    change (read_event c (py_get d "path") :: tr)
      with ([read_event c (py_get d "path")] ++ tr)%list.
    rewrite reads_of_kind_app, (reads_of_kind_nil _ tr Htail), app_nil_r.
    unfold read_event. now destruct (String.eqb (default_kv_version c) "1").
Qed.

Lemma vault_keys_unused_kind w c keys acc :
  reads_of_kind (negb (String.eqb (default_kv_version c) "1"))
    (trace (vault_keys w (Some c) keys acc)) = [].
Proof.
  revert acc. induction keys as [|[key value] rest IH]; intros acc; [reflexivity|].
  rewrite vault_keys_step.
  destruct (tagged "vault" value); [|apply IH].
  destruct (negb (HAS_HVAC w)); [now destruct (String.eqb _ _)|].
  destruct value as [| | | | |d]; try apply IH.
  rewrite trace_bind, reads_of_kind_app, vault_entry_unused_kind.
  destruct (result (vault_entry w (Some c) key d acc)); [reflexivity|apply IH].
Qed.

Lemma vault_targets_unused_kind w c secrets_info s :
  reads_of_kind (negb (String.eqb (default_kv_version c) "1"))
    (trace (vault_targets w (Some c) secrets_info s)) = [].
Proof.
  revert s. induction secrets_info as [|[t keys] rest IH]; intros s; [reflexivity|].
  cbn [vault_targets].
  rewrite trace_bind, reads_of_kind_app, vault_keys_unused_kind.
  destruct (result (vault_keys w (Some c) keys [])) as [e|[m|]];
    [reflexivity|apply IH|reflexivity].
Qed.

Lemma load_secrets_from_vault_kinds w cfg c secrets_info r :
  HAS_HVAC w = true ->
  result (create_vault_client w cfg) = inr (Some c) ->
  result (load_secrets_from_vault w secrets_info cfg) = inr r ->
  reads_of_kind (String.eqb (default_kv_version c) "1")
    (trace (load_secrets_from_vault w secrets_info cfg))
  = spec_vault_paths secrets_info /\
  reads_of_kind (negb (String.eqb (default_kv_version c) "1"))
    (trace (load_secrets_from_vault w secrets_info cfg)) = [].
Proof.
  intros Hw Hcl H.
  assert (Hunused :
            reads_of_kind (negb (String.eqb (default_kv_version c) "1"))
              (trace (load_secrets_from_vault w secrets_info cfg)) = []).
  { unfold load_secrets_from_vault.
    rewrite trace_bind, reads_of_kind_app, Hcl.
    rewrite (reads_of_kind_nil _ _ (create_vault_client_reads w cfg)).
    apply vault_targets_unused_kind. }
  split; [|exact Hunused].
  rewrite (reads_of_kind_all _ _ Hunused).
  destruct (load_secrets_from_vault_reads w secrets_info cfg)
    as (rest & Hrest & Hret & _).
  rewrite (Hret Hw r H), app_nil_r in Hrest. now symmetry.
Qed.

(** ** When the store loader returns *)

Lemma payload_data_step c payload data :
  payload_data (String.eqb (default_kv_version c) "1") payload = Some data ->
  truthy payload = true /\
  (if String.eqb (default_kv_version c) "1"
   then py_get_attr payload "data" VNone
   else inner <- py_get_attr payload "data" (VDict []) ;;
        py_get_attr inner "data" VNone) = ret (VDict data).
Proof.
  intros H. destruct payload as [| | | | |p]; try discriminate H. simpl in H.
  destruct (String.eqb (default_kv_version c) "1").
  - destruct (dict_get "data" p) as [[| | | | |dd]|] eqn:E; try discriminate H.
    injection H as ->. split; [destruct p; [discriminate E|reflexivity]|].
    cbn [py_get_attr]. unfold py_get_default. now rewrite E.
  - destruct (dict_get "data" p) as [[| | | | |inner]|] eqn:E; try discriminate H.
    destruct (dict_get "data" inner) as [[| | | | |dd]|] eqn:E'; try discriminate H.
    injection H as ->. split; [destruct p; [discriminate E|reflexivity]|].
    cbn [py_get_attr]. unfold py_get_default. rewrite E, bind_pure.
    cbn [py_get_attr]. unfold py_get_default. now rewrite E'.
Qed.

Lemma vault_entry_readable w c key d acc :
  readable w c d ->
  exists acc', result (vault_entry w (Some c) key d acc) = inr acc'.
Proof.
  intros [Hskip|(Hp & payload & data & Hread & Hdata & Hkey)].
  - exists acc. now apply vault_entry_skipped.
  - destruct (@payload_data_step c payload data Hdata) as [Ht Hstep].
    rewrite (vault_entry_after_read w c key d acc eq_refl Hp Hread Ht).
    cbn [result snd]. rewrite Hstep, bind_pure. unfold dict_mem.
    destruct Hkey as [Hk|[name Hk]]; rewrite Hk.
    + eexists. reflexivity.
    + cbn [py_index]. rewrite Hk, bind_pure. cbn [py_contains].
      rewrite bind_pure. destruct (dict_mem name data).
      * cbn [negb py_get_value]. rewrite bind_pure. eexists. reflexivity.
      * cbn [negb]. rewrite result_emit. eexists. reflexivity.
Qed.

Lemma vault_keys_returns w c keys acc :
  HAS_HVAC w = true ->
  (forall k d, In (k, VDict d) keys -> py_get d "type" = VStr "vault" ->
               readable w c d) ->
  exists m, result (vault_keys w (Some c) keys acc) = inr (Some m).
Proof.
  intros Hw. revert acc. induction keys as [|[key value] rest IH]; intros acc Hall.
  - now exists acc.
  - assert (Hrest : forall k d, In (k, VDict d) rest ->
                                py_get d "type" = VStr "vault" -> readable w c d).
    { intros k d Hin. apply (Hall k d). now right. }
    rewrite vault_keys_step, Hw. cbn [negb].
    destruct (tagged "vault" value) eqn:Ht; [|now apply IH].
    destruct value as [| | | | |d]; try now apply IH.
    assert (Hr : readable w c d).
    { apply (Hall key d); [now left|]. now apply eq_str_true. }
    destruct (@vault_entry_readable w c key d acc Hr) as [acc' Hacc'].
    rewrite result_bind, Hacc'. now apply IH.
Qed.

Lemma vault_targets_returns w c secrets_info s :
  HAS_HVAC w = true ->
  (forall t keys k d,
      In (t, keys) secrets_info -> In (k, VDict d) keys ->
      py_get d "type" = VStr "vault" -> readable w c d) ->
  exists r, result (vault_targets w (Some c) secrets_info s) = inr r.
Proof.
  intros Hw. revert s.
  induction secrets_info as [|[t keys] rest IH]; intros s Hall.
  - now exists s.
  - cbn [vault_targets]. rewrite result_bind.
    assert (Hk : forall k d, In (k, VDict d) keys ->
                             py_get d "type" = VStr "vault" -> readable w c d).
    { intros k d Hin. apply (Hall t keys k d); [now left|exact Hin]. }
    destruct (@vault_keys_returns w c keys [] Hw Hk) as [m Hm].
    rewrite Hm. apply IH. intros t0 keys0 k d Hin. apply (Hall t0 keys0 k d). now right.
Qed.

(** C3.  For every vault-tagged entry with a path the store loader reads
    according to the KV version of the client: with version ["1"] it calls
    [read_secret] and takes the [data] field of the payload, otherwise it
    calls [read_secret_version] and takes the [data] field of the [data]
    field.  The entry is bound to that data, or to the field of it that
    the entry names.  This holds for one entry of the loop and for
    [load_secrets_from_vault] as a whole: when it returns, it has made
    one read of the kind of the version for each such entry of the
    specification, in order, and none of the other kind, and each entry,
    wherever it stands, is bound as said; it returns when no entry makes
    it raise.  A client made from a configuration without
    [vault_kv_version] has version ["2"], and the example of the
    specification evaluates as stated. *)
Theorem vault_entry_kv_version :
  (forall w c key d path acc,
      dict_get "path" d = Some path -> path <> VNone ->
      (default_kv_version c = "1" ->
       forall payload,
         read_secret w c path = inr (VDict payload) -> payload <> [] ->
         (dict_get "key" d = None ->
          vault_entry w (Some c) key d acc =
          ([ReadSecret path], inr (dict_set key (py_get payload "data") acc))) /\
         (forall name data v,
             dict_get "key" d = Some (VStr name) ->
             dict_get "data" payload = Some (VDict data) ->
             dict_get name data = Some v ->
             vault_entry w (Some c) key d acc =
             ([ReadSecret path], inr (dict_set key v acc)))) /\
      (default_kv_version c <> "1" ->
       forall payload inner,
         read_secret_version w c path = inr (VDict payload) ->
         dict_get "data" payload = Some (VDict inner) ->
         (dict_get "key" d = None ->
          vault_entry w (Some c) key d acc =
          ([ReadSecretVersion path],
           inr (dict_set key (py_get inner "data") acc))) /\
         (forall name data v,
             dict_get "key" d = Some (VStr name) ->
             dict_get "data" inner = Some (VDict data) ->
             dict_get name data = Some v ->
             vault_entry w (Some c) key d acc =
             ([ReadSecretVersion path], inr (dict_set key v acc))))) /\
  (forall w cfg cl,
      result (create_vault_client w (Some cfg)) = inr (Some cl) ->
      dict_get "vault_kv_version" cfg = None ->
      default_kv_version cl = "2") /\
  result (load_secrets example_world
            [("t3", [("s3", vault_ref "foo/bar" "pw")])] (Some []))
  = inr [("t3", [("s3", VStr "shhh")])] /\
  (forall w cfg c secrets_info,
      HAS_HVAC w = true ->
      result (create_vault_client w cfg) = inr (Some c) ->
      ((forall t keys k d,
           In (t, keys) secrets_info -> In (k, VDict d) keys ->
           py_get d "type" = VStr "vault" -> readable w c d) ->
       exists r, result (load_secrets_from_vault w secrets_info cfg) = inr r) /\
      (forall r,
          result (load_secrets_from_vault w secrets_info cfg) = inr r ->
          reads_of_kind (String.eqb (default_kv_version c) "1")
            (trace (load_secrets_from_vault w secrets_info cfg))
          = spec_vault_paths secrets_info /\
          reads_of_kind (negb (String.eqb (default_kv_version c) "1"))
            (trace (load_secrets_from_vault w secrets_info cfg)) = []) /\
      (forall r t k d path,
          wf_spec secrets_info ->
          result (load_secrets_from_vault w secrets_info cfg) = inr r ->
          lookup2 t k secrets_info = Some (VDict d) ->
          py_get d "type" = VStr "vault" ->
          dict_get "path" d = Some path -> path <> VNone ->
          (default_kv_version c = "1" ->
           forall payload,
             read_secret w c path = inr (VDict payload) -> payload <> [] ->
             (dict_get "key" d = None ->
              lookup2 t k r = Some (py_get payload "data")) /\
             (forall name data v,
                 dict_get "key" d = Some (VStr name) ->
                 dict_get "data" payload = Some (VDict data) ->
                 dict_get name data = Some v ->
                 lookup2 t k r = Some v)) /\
          (default_kv_version c <> "1" ->
           forall payload inner,
             read_secret_version w c path = inr (VDict payload) ->
             dict_get "data" payload = Some (VDict inner) ->
             (dict_get "key" d = None ->
              lookup2 t k r = Some (py_get inner "data")) /\
             (forall name data v,
                 dict_get "key" d = Some (VStr name) ->
                 dict_get "data" inner = Some (VDict data) ->
                 dict_get name data = Some v ->
                 lookup2 t k r = Some v)))).
Proof.
  split; [exact vault_entry_by_version|].
  split; [exact default_kv_version_of_configuration|].
  split; [reflexivity|].
  intros w cfg c secrets_info Hw Hcl. split; [|split].
  - intros Hall. unfold load_secrets_from_vault. rewrite result_bind, Hcl.
    now apply vault_targets_returns.
  - intros r H. exact (load_secrets_from_vault_kinds w cfg secrets_info Hw Hcl H).
  - intros r t k d path Hwf H Hlook Hty Hpath Hnone.
    assert (Ht : tagged "vault" (VDict d) = true) by (simpl; now rewrite Hty).
    destruct (@load_secrets_from_vault_lookup_at w cfg c secrets_info r t k d
                Hw Hcl Hwf H Hlook Ht) as (acc0 & acc1 & Hentry & Hget).
    rewrite Hget.
    destruct (vault_entry_by_version w c k d acc0 Hpath Hnone) as [H1 H2].
    split.
    + intros Hv payload Hread Hne.
      destruct (H1 Hv payload Hread Hne) as [Hwhole Hnamed]. split.
      * intros Hkey. rewrite (Hwhole Hkey) in Hentry.
        injection Hentry as <-. apply dict_get_set_eq.
      * intros name data v Hkey Hdata Hv'.
        rewrite (Hnamed name data v Hkey Hdata Hv') in Hentry.
        injection Hentry as <-. apply dict_get_set_eq.
    + intros Hv payload inner Hread Hinner.
      destruct (H2 Hv payload inner Hread Hinner) as [Hwhole Hnamed]. split.
      * intros Hkey. rewrite (Hwhole Hkey) in Hentry.
        injection Hentry as <-. apply dict_get_set_eq.
      * intros name data v Hkey Hdata Hv'.
        rewrite (Hnamed name data v Hkey Hdata Hv') in Hentry.
        injection Hentry as <-. apply dict_get_set_eq.
Qed.

Lemma vault_entry_kv_version_witness :
  vault_entry example_world_kv1 (Some (client_of_version "1")) "s3"
    [("type", VStr "vault"); ("path", VStr "foo/bar"); ("key", VStr "pw")] []
  = ([ReadSecret (VStr "foo/bar")], inr [("s3", VStr "shhh")]) /\
  vault_entry example_world (Some (client_of_version "2")) "s3"
    [("type", VStr "vault"); ("path", VStr "foo/bar")] []
  = ([ReadSecretVersion (VStr "foo/bar")],
     inr [("s3", VDict [("pw", VStr "shhh")])]) /\
  default_kv_version (client_of_version "2") = "2" /\
  (exists r,
      result (load_secrets_from_vault example_world_kv1 two_entries_spec
                (Some kv1_config)) = inr r) /\
  reads_of_kind true
    (trace (load_secrets_from_vault example_world_kv1 two_entries_spec
              (Some kv1_config)))
  = [VStr "foo/bar"; VStr "foo/bar"] /\
  lookup2 "t3" "s3"
    [("t3", [("s3", VStr "shhh"); ("s6", VDict [("pw", VStr "shhh")])])]
  = Some (VStr "shhh") /\
  lookup2 "t3" "s6"
    [("t3", [("s3", VStr "shhh"); ("s6", VDict [("pw", VStr "shhh")])])]
  = Some (VDict [("pw", VStr "shhh")]).
Proof.
  destruct vault_entry_kv_version as (Hentry & Hdefault & _ & Hloader).
  destruct (Hloader example_world_kv1 (Some kv1_config) (client_of_version "1")
              two_entries_spec eq_refl eq_refl)
    as (Hreturns & Hreads & Hvalues).
  assert (Hwf : wf_spec two_entries_spec) by solve_wf_spec.
  split; [|split; [|split; [|split; [|split; [|split]]]]].
  - destruct (Hentry example_world_kv1 (client_of_version "1") "s3"
                [("type", VStr "vault"); ("path", VStr "foo/bar"); ("key", VStr "pw")]
                (VStr "foo/bar") [] eq_refl) as [H1 _]; [discriminate|].
    destruct (H1 eq_refl [("data", VDict [("pw", VStr "shhh")])] eq_refl)
      as [_ Hnamed]; [discriminate|].
    exact (Hnamed "pw" [("pw", VStr "shhh")] (VStr "shhh") eq_refl eq_refl eq_refl).
  - destruct (Hentry example_world (client_of_version "2") "s3"
                [("type", VStr "vault"); ("path", VStr "foo/bar")]
                (VStr "foo/bar") [] eq_refl) as [_ H2]; [discriminate|].
    destruct (H2 ltac:(discriminate)
                [("data", VDict [("data", VDict [("pw", VStr "shhh")])])]
                [("data", VDict [("pw", VStr "shhh")])] eq_refl eq_refl)
      as [Hwhole _].
    exact (Hwhole eq_refl).
  - exact (Hdefault example_world [] (client_of_version "2") eq_refl eq_refl).
  - apply Hreturns. intros t keys k d Hin Hk Hty.
    assert (Hd : py_get d "path" = VStr "foo/bar").
    { simpl in Hin. destruct Hin as [Hin|[Hin|[]]]; injection Hin as <- <-.
      - simpl in Hk. destruct Hk as [Hk|[]]. discriminate Hk.
      - simpl in Hk. destruct Hk as [Hk|[Hk|[]]]; injection Hk as <- <-;
          reflexivity. }
    right. rewrite Hd. split; [discriminate|].
    exists (VDict [("data", VDict [("pw", VStr "shhh")])]), [("pw", VStr "shhh")].
    split; [reflexivity|]. split; [reflexivity|].
    simpl in Hin. destruct Hin as [Hin|[Hin|[]]]; injection Hin as <- <-.
    + simpl in Hk. destruct Hk as [Hk|[]]. discriminate Hk.
    + simpl in Hk. destruct Hk as [Hk|[Hk|[]]]; injection Hk as <- <-.
      * right. now exists "pw".
      * now left.
  - exact (proj1 (Hreads _ eq_refl)).
  - destruct (Hvalues
                [("t3", [("s3", VStr "shhh"); ("s6", VDict [("pw", VStr "shhh")])])]
                "t3" "s3"
                [("type", VStr "vault"); ("path", VStr "foo/bar"); ("key", VStr "pw")]
                (VStr "foo/bar") Hwf eq_refl eq_refl eq_refl eq_refl)
      as [H1 _]; [discriminate|].
    destruct (H1 eq_refl [("data", VDict [("pw", VStr "shhh")])] eq_refl)
      as [_ Hnamed]; [discriminate|].
    exact (Hnamed "pw" [("pw", VStr "shhh")] (VStr "shhh") eq_refl eq_refl eq_refl).
  - destruct (Hvalues
                [("t3", [("s3", VStr "shhh"); ("s6", VDict [("pw", VStr "shhh")])])]
                "t3" "s6"
                [("type", VStr "vault"); ("path", VStr "foo/bar")]
                (VStr "foo/bar") Hwf eq_refl eq_refl eq_refl eq_refl)
      as [H1 _]; [discriminate|].
    destruct (H1 eq_refl [("data", VDict [("pw", VStr "shhh")])] eq_refl)
      as [Hwhole _]; [discriminate|].
    exact (Hwhole eq_refl).
Defined.

